(** * chat-completion-client: retry dispatcher and stream reader

    A shallow embedding of the two pieces of [client.go] and of the stream
    reader file that carry the behaviour of the library:

    - [RetryOptions], its merge [complete] and the predicate [canRetry];
    - the attempt loops of [sendRequest] and [sendRequestStream];
    - [streamReader] with [Recv], [processLines] and [unmarshalError].

    Go's [int], [int64] and [time.Duration] are 64-bit signed integers and
    [uint] is a 64-bit unsigned integer; they are integers of [Z] here and
    every arithmetic operation of the source is followed by its wrap-around.
    Byte slices are lists of [Byte.byte]. *)

From Stdlib Require Import ZArith List String Ascii Bool Lia.
From Stdlib.Strings Require Import Byte.
From stdpp Require Import base option list strings gmap.
Import ListNotations.

#[local] Open Scope Z_scope.
#[local] Open Scope list_scope.

(** ** Machine integers *)

Module Int.

Definition MaxInt64 : Z := 2 ^ 63 - 1.
Definition MaxUint64 : Z := 2 ^ 64 - 1.

(** Two's complement wrap-around of [int], [int64] and [time.Duration]. *)
Definition wrap64 (z : Z) : Z := (z + 2 ^ 63) mod 2 ^ 64 - 2 ^ 63.

(** Wrap-around of [uint]. *)
Definition wrapU64 (z : Z) : Z := z mod 2 ^ 64.

(** [x << s] on a 64-bit signed integer, for a shift count [s >= 0]. *)
Definition shl64 (x s : Z) : Z := wrap64 (Z.shiftl x s).

Definition mul64 (x y : Z) : Z := wrap64 (x * y).
Definition add64 (x y : Z) : Z := wrap64 (x + y).

End Int.

(** ** Byte slices *)

Definition bytes : Type := list Byte.byte.

(** A Go string or byte-slice literal. *)
Definition lit (s : string) : bytes := list_byte_of_string s.

Module Bytes.

Definition byte_eqb (a b : Byte.byte) : bool := Byte.eqb a b.

Fixpoint HasPrefix (s prefix : bytes) : bool :=
  match prefix, s with
  | [], _ => true
  | p :: prefix', c :: s' => byte_eqb p c && HasPrefix s' prefix'
  | _ :: _, [] => false
  end.

(** [bytes.TrimPrefix]: [s] without the leading [prefix], or [s] itself
    when it does not start with [prefix]. *)
Definition TrimPrefix (s prefix : bytes) : bytes :=
  if HasPrefix s prefix then drop (length prefix) s else s.

(** [bytes.TrimSpace] takes off the leading and trailing white space as
    Unicode defines it, on the UTF-8 reading of the slice. In one byte that
    is tab, line feed, vertical tab, form feed, carriage return and space. *)
Definition asciiSpace (c : Byte.byte) : bool :=
  match c with
  | x09 | x0a | x0b | x0c | x0d | x20 => true
  | _ => false
  end.

Definition byte_is (c : Byte.byte) (n : N) : bool := N.eqb (Byte.to_N c) n.

(** In two bytes: U+0085 and U+00A0. *)
Definition space2 (b1 b2 : Byte.byte) : bool :=
  byte_is b1 0xc2 && (byte_is b2 0x85 || byte_is b2 0xa0).

(** In three bytes: U+1680, U+2000 to U+200A, U+2028, U+2029, U+202F,
    U+205F and U+3000. *)
Definition space3 (b1 b2 b3 : Byte.byte) : bool :=
  (byte_is b1 0xe1 && byte_is b2 0x9a && byte_is b3 0x80) ||
  (byte_is b1 0xe2 && byte_is b2 0x80 &&
   ((N.leb 0x80 (Byte.to_N b3) && N.leb (Byte.to_N b3) 0x8a) ||
    byte_is b3 0xa8 || byte_is b3 0xa9 || byte_is b3 0xaf)) ||
  (byte_is b1 0xe2 && byte_is b2 0x81 && byte_is b3 0x9f) ||
  (byte_is b1 0xe3 && byte_is b2 0x80 && byte_is b3 0x80).

Fixpoint TrimLeft (s : bytes) : bytes :=
  match s with
  | [] => []
  | b1 :: s1 =>
      if asciiSpace b1 then TrimLeft s1
      else
        match s1 with
        | [] => s
        | b2 :: s2 =>
            if space2 b1 b2 then TrimLeft s2
            else
              match s2 with
              | [] => s
              | b3 :: s3 => if space3 b1 b2 b3 then TrimLeft s3 else s
              end
        end
  end.

(** The same from the end, on the reversed slice: the last byte of a
    white-space rune comes first. *)
Fixpoint TrimLeft_rev (r : bytes) : bytes :=
  match r with
  | [] => []
  | b1 :: r1 =>
      if asciiSpace b1 then TrimLeft_rev r1
      else
        match r1 with
        | [] => r
        | b2 :: r2 =>
            if space2 b2 b1 then TrimLeft_rev r2
            else
              match r2 with
              | [] => r
              | b3 :: r3 => if space3 b3 b2 b1 then TrimLeft_rev r3 else r
              end
        end
  end.

Definition TrimRight (s : bytes) : bytes := rev (TrimLeft_rev (rev s)).

Definition TrimSpace (s : bytes) : bytes := TrimRight (TrimLeft s).

(** [string(a) == string(b)]. *)
Fixpoint eqb (a b : bytes) : bool :=
  match a, b with
  | [], [] => true
  | x :: a', y :: b' => byte_eqb x y && eqb a' b'
  | _, _ => false
  end.

(** The line feed, delimiter of [ReadBytes]. *)
Definition LF : Byte.byte := x0a.

(** The double quote. *)
Definition quote : Byte.byte := x22.

End Bytes.

(** ** Errors and formatted text

    Go strings produced by [fmt.Sprintf] and errors produced by
    [fmt.Errorf] are kept as the format string with its arguments, so that
    what a message was built from stays visible. *)

(** [APIError], with the fields [client.go] reads and writes. *)
Record APIError : Type := mkAPIError {
  Message : string;
  HTTPStatusCode : Z
}.

(** [ErrorResponse]: the envelope whose [Error] field is a [*APIError]. *)
Record ErrorResponse : Type := mkErrorResponse {
  Error : option APIError
}.

#[local] Unset Elimination Schemes.
Inductive arg : Type :=
| IntArg (n : Z)
| StrArg (s : text)
| ErrArg (e : option error)
with text : Type :=
| Lit (s : string)
| OfBytes (b : bytes)
| Sprintf (format : string) (args : list arg)
| strings_Join (elems : list text) (sep : string)
with error : Type :=
| io_EOF
| ErrTooManyEmptyStreamMessages
| errors_New (msg : text)
| fmt_Errorf (format : string) (args : list arg)
| APIError_ptr (e : option APIError)
| RequestError_ptr (code : Z) (Err : error)
| foreign (msg : string).
#[local] Set Elimination Schemes.

(** A Go value of interface type [error]: [None] is [nil]. *)
Definition err : Type := option error.

(** [errors.Unwrap] on the result of [fmt.Errorf]: the operand of [%w]. *)
Definition Unwrap (e : error) : option error :=
  match e with
  | fmt_Errorf _ [ErrArg w] => w
  | _ => None
  end.

(** ** Readers, requests and responses *)

(** An [io.Reader] over a body: the bytes not read yet, and the error the
    source answers with once they are used up ([io_EOF] on a clean close). *)
Record Reader : Type := mkReader {
  unread : bytes;
  tail : error
}.

(** [bytes.NewBuffer(data)] seen as a reader. *)
Definition NewBuffer (data : bytes) : Reader := mkReader data io_EOF.

(** [io.ReadAll]: everything up to the end; reaching [io.EOF] is no error.
    The reader itself is [drained] afterwards. *)
Definition ReadAll (r : Reader) : bytes * err :=
  (unread r, match tail r with io_EOF => None | e => Some e end).

(** What [io.ReadAll] leaves of the reader it has read: nothing to read,
    and the same answer at its end. *)
Definition drained (r : Reader) : Reader := mkReader [] (tail r).

(** The first line of [s] with its delimiter, and what follows it; [None]
    when [s] holds no line feed. *)
Fixpoint cut_line (s : bytes) : option (bytes * bytes) :=
  match s with
  | [] => None
  | c :: s' =>
      if Bytes.byte_eqb c Bytes.LF then Some ([c], s')
      else match cut_line s' with
           | Some (line, rest) => Some (c :: line, rest)
           | None => None
           end
  end.

(** [bufio.Reader.ReadBytes('\n')]: the bytes up to and including the
    delimiter; when the source ends first, the bytes read so far together
    with the error of the source. *)
Definition ReadBytes (r : Reader) : bytes * err * Reader :=
  match cut_line (unread r) with
  | Some (line, rest) => (line, None, mkReader rest (tail r))
  | None => (unread r, Some (tail r), mkReader [] (tail r))
  end.

(** [http.Header], with the keys in canonical form. *)
Abbreviation Header := (gmap string (list string)).

Definition Header_Set (h : Header) (key value : string) : Header :=
  <[key := [value]]> h.

Definition Header_Get (h : Header) (key : string) : string :=
  match h !! key with
  | Some (v :: _) => v
  | _ => EmptyString
  end.

(** The cancellation side of [req.Context()]: for the wait of loop index
    [i], whether [Done] is received before the timer fires, and [Err]. *)
Record Context : Type := mkContext {
  Done_first : Z -> bool;
  ctx_Err : err
}.

Record Request : Type := mkRequest {
  req_Header : Header;
  req_Body : option Reader;
  req_Context : Context
}.

Record Response : Type := mkResponse {
  StatusCode : Z;
  Status : string;
  resp_Header : Header;
  resp_Body : Reader
}.

(** What [HTTPClient.Do] gives back: an error, or a response. *)
Inductive DoResult : Type :=
| DoErr (e : error)
| DoResp (resp : Response).

(** [ClientConfig], with the fields the dispatcher uses.  [HTTPClient_Do i]
    is the transport's answer to the call made in loop iteration [i]. *)
Record ClientConfig : Type := mkClientConfig {
  HTTPClient_Do : Z -> Request -> DoResult;
  EmptyMessagesLimit : Z
}.

Record Client : Type := mkClient {
  config : ClientConfig
}.

(** ** JSON decoding

    [encoding/json] is outside the repository: a decodable type comes with
    [json.Unmarshal(data, &v)] and [json.NewDecoder(r).Decode(&v)], each
    giving the new value of [v] and the error. *)
Class JSON (A : Type) : Type := {
  json_Unmarshal : bytes -> A -> A * err;
  json_Decode : Reader -> A -> A * err
}.

(** The constraint [streamable] on the payload type of a stream reader:
    a decodable type; [zero] is its zero value, [*new(T)]. *)
Class streamable (T : Type) : Type := {
  zero : T;
  streamable_JSON :: JSON T
}.

(** ** Retry options *)

Record RetryOptions : Type := mkRetryOptions {
  Retries : Z;
  RetryAboveCode : Z;
  RetryCodes : list Z
}.

Definition NewDefaultRetryOptions : RetryOptions :=
  {| Retries := 0; RetryAboveCode := 1; RetryCodes := [] |}.

Definition slices_Contains (s : list Z) (v : Z) : bool :=
  existsb (Z.eqb v) s.

(** The inner loop of [complete]: append the codes that are not there yet. *)
Definition add_codes (codes : list Z) (new : list Z) : list Z :=
  fold_left
    (fun acc code => if negb (slices_Contains acc code) then acc ++ [code] else acc)
    new codes.

(** One iteration of the outer loop of [complete]. *)
Definition complete_one (r opt : RetryOptions) : RetryOptions :=
  {| Retries := if 0 <? Retries opt then Retries opt else Retries r;
     RetryAboveCode :=
       if 0 <? RetryAboveCode opt then RetryAboveCode opt else RetryAboveCode r;
     RetryCodes := add_codes (RetryCodes r) (RetryCodes opt) |}.

Definition complete (r : RetryOptions) (opts : list RetryOptions) : RetryOptions :=
  fold_left complete_one opts r.

Definition canRetry (r : RetryOptions) (statusCode : Z) : bool :=
  if (0 <? RetryAboveCode r) && (RetryAboveCode r <? statusCode) then true
  else slices_Contains (RetryCodes r) statusCode.

(** ** The dispatcher *)

(** [time.Millisecond * 200], in nanoseconds. *)
Definition baseDelay : Z := 1000000 * 200.

Definition isFailureStatusCode (resp : Response) : bool :=
  (StatusCode resp <? 200) || (400 <=? StatusCode resp).

Definition handleErrorResp `{!JSON ErrorResponse} (resp : Response) : error :=
  let data := fst (ReadAll (resp_Body resp)) in
  let '(errRes, e) := json_Decode (NewBuffer data) (mkErrorResponse None) in
  match e, Error errRes with
  | None, Some apiErr =>
      if negb (String.eqb (Message apiErr) EmptyString) then
        APIError_ptr
          (Some {| Message := Message apiErr; HTTPStatusCode := StatusCode resp |})
      else RequestError_ptr (StatusCode resp) (errors_New (OfBytes data))
  | _, _ => RequestError_ptr (StatusCode resp) (errors_New (OfBytes data))
  end.

(** A value of type [any] handed to [decodeResponse]: [nil], a [*string],
    or a pointer to a decodable value. *)
Inductive any (R : Type) : Type :=
| AnyNil
| AnyString (s : bytes)
| AnyValue (x : R).
Arguments AnyNil {R}.
Arguments AnyString {R} s.
Arguments AnyValue {R} x.

Definition decodeString {R} (body : Reader) (output : bytes) : err * any R :=
  let '(b, e) := ReadAll body in
  match e with
  | Some e' => (Some e', AnyString output)
  | None => (None, AnyString b)
  end.

Definition decodeResponse {R} `{!JSON R} (body : Reader) (v : any R) : err * any R :=
  match v with
  | AnyNil => (None, AnyNil)
  | AnyString o => decodeString body o
  | AnyValue x => let '(x', e) := json_Decode body x in (e, AnyValue x')
  end.

(** A value behind the interface [Response]: a struct that embeds
    [httpHeader] next to its decodable fields. *)
Record Sink (R : Type) : Type := mkSink {
  httpHeader : Header;
  fields : R
}.
Arguments mkSink {R} _ _.
Arguments httpHeader {R} _.
Arguments fields {R} _.

Definition SetHeader {R} (v : Sink R) (header : Header) : Sink R :=
  mkSink header (fields v).

(** What a run of the dispatcher does to the outside, in order: a call of
    the transport in iteration [i] with the request as sent, or the
    [select] of iteration [i] on a timer of [d] nanoseconds, [cancelled]
    when the context won. *)
Inductive Event : Type :=
| EvDo (i : Z) (req : Request) (res : DoResult)
| EvWait (i : Z) (d : Z) (cancelled : bool).

(** A call of [slog.Error]. *)
Record LogEntry : Type := mkLogEntry {
  log_msg : string;
  log_attrs : list (string * arg)
}.

(** How a call ends: it returns, it panics, or the model ran out of fuel,
    which stands for a loop that does not end. *)
Inductive Outcome (A : Type) : Type :=
| Return (a : A)
| Panic
| OutOfFuel.
Arguments Return {A} a.
Arguments Panic {A}.
Arguments OutOfFuel {A}.

Record Run (A : Type) : Type := mkRun {
  outcome : Outcome A;
  events : list Event;
  failures : list text;
  logs : list LogEntry
}.
Arguments mkRun {A} _ _ _ _.
Arguments outcome {A} _.
Arguments events {A} _.
Arguments failures {A} _.
Arguments logs {A} _.

(** Put one more event in front of what a run does. *)
Definition emit {A} (e : Event) (r : Run A) : Run A :=
  mkRun (outcome r) (e :: events r) (failures r) (logs r).

(** [rand.Int63n(n)] for [n > 0]: a number of [[0, n)]; [raw] is the draw
    of the generator. *)
Definition Int63n (raw n : Z) : Z := raw mod n.

(** The exponential backoff of iteration [i]: [delay + jitter]. *)
Definition backoff (raw i : Z) : Z :=
  let delay := Int.mul64 baseDelay (Int.shl64 1 i) in
  let jitter := Int63n raw baseDelay in
  Int.add64 delay jitter.

(** [failures[len(failures)-1]] *)
Definition last_failure (failures : list text) : option text := last failures.

(** The request of an iteration: its body reset to the saved bytes. *)
Definition reset_body (req : Request) (bodyBytes : option bytes) : Request :=
  match bodyBytes with
  | Some b => mkRequest (req_Header req) (Some (NewBuffer b)) (req_Context req)
  | None => req
  end.

(** ** The stream reader *)

Definition headerData : bytes := lit "data: ".
(** [data: {"error":] *)
Definition errorPrefix : bytes :=
  lit "data: {" ++ [Bytes.quote] ++ lit "error" ++ [Bytes.quote] ++ lit ":".
Definition doneMarker : bytes := lit "[DONE]".

Record streamReader (T : Type) : Type := mkStreamReader {
  emptyMessagesLimit : Z;
  isFinished : bool;
  reader : Reader;
  response : Response;
  errBuffer : bytes;
  stream_httpHeader : Header
}.
Arguments mkStreamReader {T} _ _ _ _ _ _.
Arguments emptyMessagesLimit {T} _.
Arguments isFinished {T} _.
Arguments reader {T} _.
Arguments response {T} _.
Arguments errBuffer {T} _.
Arguments stream_httpHeader {T} _.

Definition set_reader {T} (stream : streamReader T) (rd : Reader) : streamReader T :=
  mkStreamReader (emptyMessagesLimit stream) (isFinished stream) rd
    (response stream) (errBuffer stream) (stream_httpHeader stream).

Definition set_isFinished {T} (stream : streamReader T) (b : bool) : streamReader T :=
  mkStreamReader (emptyMessagesLimit stream) b (reader stream)
    (response stream) (errBuffer stream) (stream_httpHeader stream).

(** [stream.errBuffer.Write(p)]; a [bytes.Buffer] never fails to write. *)
Definition errBuffer_Write {T} (stream : streamReader T) (p : bytes) : streamReader T :=
  mkStreamReader (emptyMessagesLimit stream) (isFinished stream) (reader stream)
    (response stream) (errBuffer stream ++ p) (stream_httpHeader stream).

(** The local variables of [processLines]. *)
Record locals : Type := mkLocals {
  emptyMessagesCount : Z;
  hasErrorPrefix : bool
}.

(** Their values when [processLines] is entered. *)
Definition locals_at_entry : locals := mkLocals 0 false.

(** What a call on a reader leaves: how it ended, the reader afterwards,
    and the local variables at that point. *)
Record Call (T : Type) : Type := mkCall {
  ended : Outcome (T * err);
  after : streamReader T;
  at_exit : locals
}.
Arguments mkCall {T} _ _ _.
Arguments ended {T} _.
Arguments after {T} _.
Arguments at_exit {T} _.

Section StreamReader.
Context {T : Type} `{!streamable T} `{!JSON (option ErrorResponse)}.

Definition unmarshalError (stream : streamReader T) : option ErrorResponse :=
  let errBytes := errBuffer stream in
  if (length errBytes =? 0)%nat then None
  else
    let '(errResp, e) := json_Unmarshal errBytes None in
    match e with
    | Some _ => None
    | None => errResp
    end.

(** The [for] loop of [processLines]; one unit of [fuel] per line read. *)
Fixpoint processLines_loop (fuel : nat) (l : locals) (stream : streamReader T)
  : Call T :=
  match fuel with
  | O => mkCall OutOfFuel stream l
  | S fuel' =>
      let '(rawLine, readErr, rd) := ReadBytes (reader stream) in
      let stream := set_reader stream rd in
      if bool_decide (is_Some readErr) || hasErrorPrefix l then
        match unmarshalError stream with
        | Some respErr =>
            mkCall
              (Return (zero, Some (fmt_Errorf "error, %w"
                                     [ErrArg (Some (APIError_ptr (Error respErr)))])))
              stream l
        | None => mkCall (Return (zero, readErr)) stream l
        end
      else
        let noSpaceLine := Bytes.TrimSpace rawLine in
        let l :=
          if Bytes.HasPrefix noSpaceLine errorPrefix
          then mkLocals (emptyMessagesCount l) true else l in
        if negb (Bytes.HasPrefix noSpaceLine headerData) || hasErrorPrefix l then
          let noSpaceLine :=
            if hasErrorPrefix l then Bytes.TrimPrefix noSpaceLine headerData
            else noSpaceLine in
          let stream := errBuffer_Write stream noSpaceLine in
          let l :=
            mkLocals (Int.wrapU64 (emptyMessagesCount l + 1)) (hasErrorPrefix l) in
          if emptyMessagesLimit stream <? emptyMessagesCount l then
            mkCall (Return (zero, Some ErrTooManyEmptyStreamMessages)) stream l
          else processLines_loop fuel' l stream
        else
          let noPrefixLine := Bytes.TrimPrefix noSpaceLine headerData in
          if Bytes.eqb noPrefixLine doneMarker then
            mkCall (Return (zero, Some io_EOF)) (set_isFinished stream true) l
          else
            let '(response, unmarshalErr) := json_Unmarshal noPrefixLine zero in
            match unmarshalErr with
            | Some e => mkCall (Return (zero, Some e)) stream l
            | None => mkCall (Return (response, None)) stream l
            end
  end.

(** Every pass through the loop that goes on has taken a line off the
    body, so one more unit of fuel than the body has bytes is enough. *)
Definition processLines (stream : streamReader T) : Call T :=
  processLines_loop (S (length (unread (reader stream)))) locals_at_entry stream.

Definition Recv (stream : streamReader T) : Outcome (T * err) * streamReader T :=
  if isFinished stream then (Return (zero, Some io_EOF), stream)
  else
    let r := processLines stream in
    (ended r, after r).

(** [n] calls of [Recv] in a row: the results in order, and the reader
    after the last one. *)
Fixpoint Recv_times (n : nat) (stream : streamReader T)
  : list (Outcome (T * err)) * streamReader T :=
  match n with
  | O => ([], stream)
  | S n' =>
      let '(r, stream') := Recv stream in
      let '(rs, stream'') := Recv_times n' stream' in
      (r :: rs, stream'')
  end.

End StreamReader.

(** ** The attempt loops *)

Definition attempt_no (i : Z) : arg := IntArg (Int.add64 i 1).

Section Dispatcher.
Context {R : Type} `{!JSON R} `{!JSON ErrorResponse}.
Variable c : Client.
(** [rand i]: the draw of [math/rand] in iteration [i]. *)
Variable rand : Z -> Z.

(** The result of [sendRequest]: the error, and [v] as the call left it. *)
Definition sent : Type := err * option (Sink R).

(** The successful exit of [sendRequest]. *)
Definition sendRequest_success (resp : Response) (v : option (Sink R)) : sent :=
  match v with
  | Some s =>
      let s := SetHeader s (resp_Header resp) in
      match decodeResponse (resp_Body resp) (AnyValue (fields s)) with
      | (e, AnyValue x) => (e, Some (mkSink (httpHeader s) x))
      | (e, _) => (e, Some s)
      end
  | None => (fst (decodeResponse (R := R) (resp_Body resp) AnyNil), None)
  end.

Fixpoint sendRequest_loop (fuel : nat) (req : Request) (v : option (Sink R))
    (options : RetryOptions) (bodyBytes : option bytes)
    (i : Z) (failures : list text) : Run sent :=
  match fuel with
  | O => mkRun OutOfFuel [] failures []
  | S fuel' =>
      if i <=? Retries options then
        let tries := attempt_no i in
        let maxTries := attempt_no (Retries options) in
        let req := reset_body req bodyBytes in
        let res := HTTPClient_Do (config c) i req in
        emit (EvDo i req res)
          match res with
          | DoResp resp =>
              if negb (isFailureStatusCode resp) then
                mkRun (Return (sendRequest_success resp v)) [] failures []
              else
                let failures :=
                  failures ++
                  [Sprintf "#%d/%d error response received: %v"
                     [tries; maxTries; ErrArg (Some (handleErrorResp resp))]] in
                if negb (canRetry options (StatusCode resp)) then
                  let failures :=
                    failures ++
                    [Sprintf "exiting due to non-retriable error in try #%d/%d: %d %s"
                       [tries; maxTries; IntArg (StatusCode resp);
                        StrArg (Lit (Status resp))]] in
                  mkRun
                    (Return
                       (Some (fmt_Errorf "request failed on non-retriable status-code: %d %s"
                                [IntArg (StatusCode resp); StrArg (Lit (Status resp))]),
                        v))
                    [] failures
                    [mkLogEntry "sendRequest failed due to non-retriable statuscode"
                       [("code", IntArg (StatusCode resp));
                        ("status", StrArg (Lit (Status resp)));
                        ("tries", tries); ("maxTries", maxTries);
                        ("failures", StrArg (strings_Join failures "; "))]]
                else
                  let cancelled := Done_first (req_Context req) i in
                  emit (EvWait i (backoff (rand i) i) cancelled)
                    (if cancelled then
                       mkRun
                         (Return
                            (Some (fmt_Errorf "request failed due to canceled context: %v"
                                     [ErrArg (ctx_Err (req_Context req))]),
                             v))
                         [] failures
                         [mkLogEntry "sendRequest failed due to canceled context"
                            [("tries", tries); ("maxTries", maxTries);
                             ("failures", StrArg (strings_Join failures "; "))]]
                     else
                       sendRequest_loop fuel' req v options bodyBytes
                         (Int.add64 i 1) failures)
          | DoErr e =>
              sendRequest_loop fuel' req v options bodyBytes (Int.add64 i 1)
                (failures ++
                 [Sprintf "#%d/%d failed to send request: %v"
                    [tries; maxTries; ErrArg (Some e)]])
          end
      else
        mkRun
          match last_failure failures with
          | Some f =>
              Return (Some (fmt_Errorf "request exceeded retry limits: %s" [StrArg f]), v)
          | None => Panic
          end
          [] failures
          [mkLogEntry "sendRequest failed after exceeding retry limit"
             [("tries", attempt_no (Retries options));
              ("failures", StrArg (strings_Join failures "; "))]]
  end.

(** Enough fuel for [Retries + 1] iterations and the test that ends the loop. *)
Definition loop_fuel (options : RetryOptions) : nat :=
  S (Z.to_nat (Retries options + 1)).

Definition sendRequest (req : Request) (v : option (Sink R))
    (retryOpts : list RetryOptions) : Run sent :=
  let req :=
    mkRequest (Header_Set (req_Header req) "Accept" "application/json")
      (req_Body req) (req_Context req) in
  let options := complete NewDefaultRetryOptions retryOpts in
  let contentType := Header_Get (req_Header req) "Content-Type" in
  let req :=
    if String.eqb contentType EmptyString then
      mkRequest (Header_Set (req_Header req) "Content-Type" "application/json")
        (req_Body req) (req_Context req)
    else req in
  match req_Body req with
  | Some body =>
      match ReadAll body with
      | (_, Some e) =>
          mkRun
            (Return (Some (fmt_Errorf "failed to read request body: %v" [ErrArg (Some e)]), v))
            [] [] []
      | (bodyBytes, None) =>
          (* [req.Body] has been read to its end *)
          let req := mkRequest (req_Header req) (Some (drained body)) (req_Context req) in
          sendRequest_loop (loop_fuel options) req v options (Some bodyBytes) 0 []
      end
  | None => sendRequest_loop (loop_fuel options) req v options None 0 []
  end.

End Dispatcher.

Section StreamDispatcher.
Context {T : Type} `{!JSON ErrorResponse}.
Variable client : Client.
Variable rand : Z -> Z.

(** The result of [sendRequestStream]: the reader or [nil], and the error. *)
Definition opened : Type := option (streamReader T) * err.

Fixpoint sendRequestStream_loop (fuel : nat) (req : Request)
    (options : RetryOptions) (bodyBytes : option bytes)
    (i : Z) (failures : list text) : Run opened :=
  match fuel with
  | O => mkRun OutOfFuel [] failures []
  | S fuel' =>
      if i <=? Retries options then
        let tries := attempt_no i in
        let maxTries := attempt_no (Retries options) in
        let req := reset_body req bodyBytes in
        let res := HTTPClient_Do (config client) i req in
        emit (EvDo i req res)
          match res with
          | DoResp resp =>
              if negb (isFailureStatusCode resp) then
                mkRun
                  (Return
                     (Some {| emptyMessagesLimit := EmptyMessagesLimit (config client);
                              isFinished := false;
                              reader := resp_Body resp;
                              response := resp;
                              errBuffer := [];
                              stream_httpHeader := resp_Header resp |},
                      None))
                  [] failures []
              else
                let failures :=
                  failures ++
                  [Sprintf "#%d/%d error response received: %v"
                     [tries; maxTries; ErrArg (Some (handleErrorResp resp))]] in
                if negb (canRetry options (StatusCode resp)) then
                  let failures :=
                    failures ++
                    [Sprintf "exiting due to non-retriable error in try #%d/%d: %d %s"
                       [tries; maxTries; IntArg (StatusCode resp);
                        StrArg (Lit (Status resp))]] in
                  mkRun
                    (Return
                       (None,
                        Some (fmt_Errorf "request failed on non-retriable status-code: %d %s"
                                [IntArg (StatusCode resp); StrArg (Lit (Status resp))])))
                    [] failures
                    [mkLogEntry "sendRequestStream failed due to non-retriable statuscode"
                       [("code", IntArg (StatusCode resp));
                        ("status", StrArg (Lit (Status resp)));
                        ("tries", tries); ("maxTries", maxTries);
                        ("failures", StrArg (strings_Join failures "; "))]]
                else
                  let cancelled := Done_first (req_Context req) i in
                  emit (EvWait i (backoff (rand i) i) cancelled)
                    (if cancelled then
                       let failures :=
                         failures ++
                         [Sprintf "exiting due to canceled context after try #%d/%d: %v"
                            [tries; maxTries; ErrArg (ctx_Err (req_Context req))]] in
                       mkRun
                         (Return
                            (None,
                             Some (fmt_Errorf "request failed due to canceled context: %v"
                                     [ErrArg (ctx_Err (req_Context req))])))
                         [] failures
                         [mkLogEntry "sendRequestStream failed due to canceled context"
                            [("tries", tries); ("maxTries", maxTries);
                             ("failures", StrArg (strings_Join failures "; "))]]
                     else
                       sendRequestStream_loop fuel' req options bodyBytes
                         (Int.add64 i 1) failures)
          | DoErr e =>
              sendRequestStream_loop fuel' req options bodyBytes (Int.add64 i 1)
                (failures ++
                 [Sprintf "#%d/%d failed to send request: %v"
                    [tries; maxTries; ErrArg (Some e)]])
          end
      else
        mkRun
          match last_failure failures with
          | Some f =>
              Return (None, Some (fmt_Errorf "request exceeded retry limits: %s" [StrArg f]))
          | None => Panic
          end
          [] failures
          [mkLogEntry "sendRequestStream failed after exceeding retry limit"
             [("tries", attempt_no (Retries options));
              ("failures", StrArg (strings_Join failures "; "))]]
  end.

Definition sendRequestStream (req : Request) (retryOpts : list RetryOptions)
  : Run opened :=
  let set k v (r : Request) :=
    mkRequest (Header_Set (req_Header r) k v) (req_Body r) (req_Context r) in
  let req := set "Content-Type" "application/json" req in
  let req := set "Accept" "text/event-stream" req in
  let req := set "Cache-Control" "no-cache" req in
  let req := set "Connection" "keep-alive" req in
  let options := complete NewDefaultRetryOptions retryOpts in
  match req_Body req with
  | Some body =>
      match ReadAll body with
      | (_, Some e) =>
          mkRun
            (Return (None, Some (fmt_Errorf "failed to read request body: %v" [ErrArg (Some e)])))
            [] [] []
      | (bodyBytes, None) =>
          (* [req.Body] has been read to its end *)
          let req := mkRequest (req_Header req) (Some (drained body)) (req_Context req) in
          sendRequestStream_loop (loop_fuel options) req options (Some bodyBytes) 0 []
      end
  | None => sendRequestStream_loop (loop_fuel options) req options None 0 []
  end.

End StreamDispatcher.

(** ** Sample decoders

    Instances of the decoding interfaces that the examples below run on.
    They accept a few JSON texts only, and on these they agree with
    [encoding/json]; what they answer with a syntax error is to be used in
    an example only where it is no JSON text. *)

Module Sample.

(** Like [json.RawMessage]: the payload is the JSON text itself. *)
Definition RawMessage : Type := bytes.

(** The empty object, [{}]. *)
Definition is_object (s : bytes) : bool := Bytes.eqb s (lit "{}").

Definition syntax_error : error := foreign "invalid character".

Definition decode_raw (s : bytes) (old : RawMessage) : RawMessage * err :=
  if is_object s then (s, None) else (old, Some syntax_error).

(** A [Decoder] on a source with nothing to read answers [io.EOF]. *)
Definition decode_from {A} (decode : bytes -> A -> A * err) (r : Reader) (old : A)
  : A * err :=
  match unread r with
  | [] => (old, Some (tail r))
  | s => decode s old
  end.

#[export] Instance RawMessage_JSON : JSON RawMessage :=
  {| json_Unmarshal := decode_raw;
     json_Decode := decode_from decode_raw |}.

#[export] Instance RawMessage_streamable : streamable RawMessage :=
  {| zero := [] |}.

(** [{"error":{"message":"] and ["}}] *)
Definition envelope_open : bytes :=
  lit "{" ++ [Bytes.quote] ++ lit "error" ++ [Bytes.quote] ++ lit ":{" ++
  [Bytes.quote] ++ lit "message" ++ [Bytes.quote] ++ lit ":" ++ [Bytes.quote].
Definition envelope_close : bytes := [Bytes.quote] ++ lit "}}".

(** A message text without escapes: printable ASCII, no quote and no
    backslash. *)
Definition plain (m : bytes) : bool :=
  forallb
    (fun c =>
       (32 <=? Byte.to_N c)%N && (Byte.to_N c <=? 126)%N &&
       negb (Bytes.byte_eqb c Bytes.quote || Bytes.byte_eqb c x5c))
    m.

(** The envelope [{"error":{"message":"m"}}] for a plain [m], [{}] and
    nothing else. *)
Definition decode_envelope (s : bytes) : option ErrorResponse :=
  if Bytes.eqb s (lit "{}") then Some (mkErrorResponse None)
  else if Bytes.HasPrefix s envelope_open then
    let rest := drop (length envelope_open) s in
    let m := take (length rest - length envelope_close) rest in
    if plain m && Bytes.eqb (drop (length m) rest) envelope_close then
      Some (mkErrorResponse (Some (mkAPIError (string_of_list_byte m) 0)))
    else None
  else None.

Definition decode_ErrorResponse (s : bytes) (old : ErrorResponse)
  : ErrorResponse * err :=
  match decode_envelope s with
  | Some e => (e, None)
  | None => (old, Some syntax_error)
  end.

Definition decode_ErrorResponse_ptr (s : bytes) (old : option ErrorResponse)
  : option ErrorResponse * err :=
  if Bytes.eqb s (lit "null") then (None, None)
  else
    match decode_envelope s with
    | Some e => (Some e, None)
    | None => (old, Some syntax_error)
    end.

#[export] Instance ErrorResponse_JSON : JSON ErrorResponse :=
  {| json_Unmarshal := decode_ErrorResponse;
     json_Decode := decode_from decode_ErrorResponse |}.

#[export] Instance ErrorResponse_ptr_JSON : JSON (option ErrorResponse) :=
  {| json_Unmarshal := decode_ErrorResponse_ptr;
     json_Decode := decode_from decode_ErrorResponse_ptr |}.

(** [{"error":{"message":"boom"}}] *)
Definition boom_envelope : bytes := envelope_open ++ lit "boom" ++ envelope_close.

(** The same envelope with an empty message. *)
Definition empty_envelope : bytes := envelope_open ++ envelope_close.

Definition ok_response (body : bytes) : Response :=
  mkResponse 200 "200 OK" ∅ (NewBuffer body).

Definition failed_response (code : Z) (status : string) : Response :=
  mkResponse code status ∅ (NewBuffer []).

Definition background : Context := mkContext (fun _ => false) None.

Definition get_request : Request := mkRequest ∅ None background.

(** A transport that answers every call with the same response. *)
Definition always (resp : Response) : Client :=
  mkClient (mkClientConfig (fun _ _ => DoResp resp) 300).

(** A transport that answers the call of iteration [i] with the [i]-th
    element of [script], and with an error once the script has run out. *)
Definition scripted (script : list DoResult) : Client :=
  mkClient
    (mkClientConfig
       (fun i _ => default (DoErr (foreign "connection refused")) (script !! Z.to_nat i))
       300).

(** A reader of [limit] over the body [body], as [sendRequestStream]
    builds it. *)
Definition reader_on (limit : Z) (body : bytes) : streamReader RawMessage :=
  mkStreamReader limit false (NewBuffer body) (ok_response body) [] ∅.

Definition bad_request : Response := failed_response 400 "400 Bad Request".
Definition unavailable : Response := failed_response 503 "503 Service Unavailable".

(** A context that is done before any timer fires. *)
Definition cancelled_context : Context :=
  mkContext (fun _ => true) (Some (foreign "context canceled")).

(** A context that is cancelled during the wait of iteration [n]. *)
Definition cancelled_during (n : Z) : Context :=
  mkContext (fun i => i =? n) (Some (foreign "context canceled")).

Definition refused : error := foreign "connection refused".


(** The draw of the random generator in every iteration. *)
Definition draw : Z -> Z := fun _ => 7.

(** [get_request] as [sendRequest] sends it. *)
Definition sent_request (ctx : Context) : Request :=
  mkRequest
    (Header_Set (Header_Set ∅ "Accept" "application/json")
       "Content-Type" "application/json")
    None ctx.

Definition line (s : string) : bytes := lit s ++ [Bytes.LF].

(** [data: {"error":{"message":"boom"}}] and its line feed. *)
Definition boom_body : bytes := headerData ++ boom_envelope ++ [Bytes.LF].

(** The error lead with an empty message, and its line feed. *)
Definition empty_message_body : bytes := headerData ++ empty_envelope ++ [Bytes.LF].

End Sample.

(** ** Reading a run *)

Definition is_attempt (e : Event) : bool :=
  match e with
  | EvDo _ _ _ => true
  | EvWait _ _ _ => false
  end.

(** The number of calls of the transport in a run. *)
Definition attempts {A} (r : Run A) : nat := length (filter is_attempt (events r)).

(** The waits of a run, in order: the duration of each timer. *)
Definition waits {A} (r : Run A) : list Z :=
  omap (fun e => match e with EvWait _ d _ => Some d | EvDo _ _ _ => None end)
    (events r).

(** The entry a transport failure of iteration [i] leaves in [failures]. *)
Definition send_failure (options : RetryOptions) (i : Z) (e : error) : text :=
  Sprintf "#%d/%d failed to send request: %v"
    [attempt_no i; attempt_no (Retries options); ErrArg (Some e)].

(** The error a call returns when the context is done during a wait. *)
Definition canceled (ctx : Context) : error :=
  fmt_Errorf "request failed due to canceled context: %v" [ErrArg (ctx_Err ctx)].

(** The error a call returns on a response that is not to be retried. *)
Definition non_retriable (resp : Response) : error :=
  fmt_Errorf "request failed on non-retriable status-code: %d %s"
    [IntArg (StatusCode resp); StrArg (Lit (Status resp))].


(** The request body can be saved: there is none, or reading it to the end
    gives no error. *)
Definition body_readable (req : Request) : Prop :=
  forall body, req_Body req = Some body -> snd (ReadAll body) = None.

(** ** Lines of a body *)

(** [raw] is one line as [ReadBytes] cuts it: it ends with its only line
    feed. *)
Definition one_line (raw : bytes) : bool :=
  match cut_line raw with
  | Some (_, []) => true
  | _ => false
  end.

(** A line that is not a data frame: trimmed, it does not start with
    [headerData]. *)
Definition is_noise (raw : bytes) : bool :=
  one_line raw && negb (Bytes.HasPrefix (Bytes.TrimSpace raw) headerData).

(** A genuine data frame: trimmed, the line starts with [headerData] and
    not with [errorPrefix]. *)
Definition is_data (raw : bytes) : bool :=
  one_line raw &&
  Bytes.HasPrefix (Bytes.TrimSpace raw) headerData &&
  negb (Bytes.HasPrefix (Bytes.TrimSpace raw) errorPrefix).

(** A line that opens an error in the band of the data frames. *)
Definition is_error_lead (raw : bytes) : bool :=
  one_line raw && Bytes.HasPrefix (Bytes.TrimSpace raw) errorPrefix.

(** What a data frame carries. *)
Definition payload (raw : bytes) : bytes :=
  Bytes.TrimPrefix (Bytes.TrimSpace raw) headerData.

(** The reader [stream] placed on another body. *)
Definition on_body {T} (stream : streamReader T) (body : bytes) : streamReader T :=
  set_reader stream (mkReader body (tail (reader stream))).

(** What [processLines] has made of [stream] once it has passed the noise
    lines [ns] and the body goes on with [rest]. *)
Definition past_noise {T} (stream : streamReader T) (ns : list bytes) (rest : bytes)
  : streamReader T :=
  mkStreamReader (emptyMessagesLimit stream) (isFinished stream)
    (mkReader rest (tail (reader stream))) (response stream)
    (errBuffer stream ++ concat (map Bytes.TrimSpace ns)) (stream_httpHeader stream).

(** The error [processLines] wraps a decoded error response in. *)
Definition stream_error (respErr : ErrorResponse) : error :=
  fmt_Errorf "error, %w" [ErrArg (Some (APIError_ptr (Error respErr)))].

(** ** More readings of a run *)

(** The loop index of each call of the transport in a run, in order. *)
Definition attempt_indices (evs : list Event) : list Z :=
  omap (fun e => match e with EvDo i _ _ => Some i | EvWait _ _ _ => None end) evs.

(** The durations of the timers a run has waited on, in order. *)
Definition wait_durations (evs : list Event) : list Z :=
  omap (fun e => match e with EvWait _ d _ => Some d | EvDo _ _ _ => None end) evs.

(** The requests the transport was called with, in order. *)
Definition requests_sent (evs : list Event) : list Request :=
  omap (fun e => match e with EvDo _ rq _ => Some rq | EvWait _ _ _ => None end) evs.

(** A call of the transport answered with a status that is no failure. *)
Definition is_success (e : Event) : bool :=
  match e with
  | EvDo _ _ (DoResp resp) => negb (isFailureStatusCode resp)
  | _ => false
  end.

(** The error of a call whose attempts are used up, [f] being the last
    failure recorded. *)
Definition exceeded (f : text) : error :=
  fmt_Errorf "request exceeded retry limits: %s" [StrArg f].

(** The entry a failure status in iteration [i] leaves in [failures]. *)
Definition status_failure (options : RetryOptions) (i : Z) (e : error) : text :=
  Sprintf "#%d/%d error response received: %v"
    [attempt_no i; attempt_no (Retries options); ErrArg (Some e)].

(** The error of a call whose request body cannot be read. *)
Definition body_unreadable (e : error) : error :=
  fmt_Errorf "failed to read request body: %v" [ErrArg (Some e)].

(** The decoding interface on the unit type, for runs whose result is not
    looked at. *)
#[export] Instance unit_JSON : JSON unit :=
  {| json_Unmarshal := fun _ x => (x, None); json_Decode := fun _ x => (x, None) |}.

(** The reader [sendRequestStream] builds on a response. *)
Definition reader_of (client : Client) {T} (resp : Response) : streamReader T :=
  {| emptyMessagesLimit := EmptyMessagesLimit (config client);
     isFinished := false;
     reader := resp_Body resp;
     response := resp;
     errBuffer := [];
     stream_httpHeader := resp_Header resp |}.

(** What calls may change of a reader: they read on in the body, they add
    to the error buffer, and they may set [isFinished]; the rest stays. *)
Definition advanced {T} (s s' : streamReader T) : Prop :=
  emptyMessagesLimit s' = emptyMessagesLimit s /\
  response s' = response s /\
  stream_httpHeader s' = stream_httpHeader s /\
  tail (reader s') = tail (reader s) /\
  unread (reader s') `suffix_of` unread (reader s) /\
  errBuffer s `prefix_of` errBuffer s' /\
  (isFinished s = true -> isFinished s' = true).

(** ** The dispatcher without retries

    The second client file sends a request once; its one call of the
    transport is the call of index 0. *)

Module Plain.

(** The request as [sendRequest] hands it to the transport. *)
Definition prepared (req : Request) : Request :=
  let req :=
    mkRequest (Header_Set (req_Header req) "Accept" "application/json")
      (req_Body req) (req_Context req) in
  let contentType := Header_Get (req_Header req) "Content-Type" in
  if String.eqb contentType EmptyString then
    mkRequest (Header_Set (req_Header req) "Content-Type" "application/json")
      (req_Body req) (req_Context req)
  else req.

Definition sendRequest {R} `{!JSON R} `{!JSON ErrorResponse}
    (c : Client) (req : Request) (v : option (Sink R)) : err * option (Sink R) :=
  match HTTPClient_Do (config c) 0 (prepared req) with
  | DoErr e => (Some e, v)
  | DoResp res =>
      if isFailureStatusCode res then (Some (handleErrorResp res), v)
      else sendRequest_success res v
  end.

(** [sendRequestRaw]: the body of the response, or [nil] and the error. *)
Definition sendRequestRaw `{!JSON ErrorResponse} (c : Client) (req : Request)
  : option Reader * err :=
  match HTTPClient_Do (config c) 0 req with
  | DoErr e => (None, Some e)
  | DoResp resp =>
      if isFailureStatusCode resp then (None, Some (handleErrorResp resp))
      else (Some (resp_Body resp), None)
  end.

End Plain.

(** ** URLs *)

(** [strings.TrimRight(s, cutset)] for a cutset of the one character [c]. *)
Fixpoint TrimRight_char (s : string) (c : ascii) : string :=
  match s with
  | EmptyString => EmptyString
  | String a s' =>
      match TrimRight_char s' c with
      | EmptyString => if Ascii.eqb a c then EmptyString else String a EmptyString
      | t => String a t
      end
  end.

(** [strings.Contains(s, substr)] *)
Fixpoint strings_Contains (s substr : string) : bool :=
  String.prefix substr s ||
  match s with
  | EmptyString => false
  | String _ s' => strings_Contains s' substr
  end.

Fixpoint containsSubstr (s : list string) (e : string) : bool :=
  match s with
  | [] => false
  | v :: s' => if strings_Contains e v then true else containsSubstr s' e
  end.

(** The fields of the client configuration that [fullURL] reads;
    [GetAzureDeploymentByModel] is the method of that name. *)
Record URLConfig : Type := mkURLConfig {
  APIType : string;
  BaseURL : string;
  APIVersion : string;
  GetAzureDeploymentByModel : string -> string
}.

(** An argument of type [any] of [fullURL]: a string, or something else. *)
Inductive url_arg : Type :=
| StringArg (s : string)
| OtherArg.

Section URLs.
(** The constants of the package that [fullURL] uses. *)
Variables APITypeAzure APITypeAzureAD azureAPIPrefix azureDeploymentsPrefix : string.

Definition fullURL (cfg : URLConfig) (suffix : string) (args : list url_arg) : string :=
  if String.eqb (APIType cfg) APITypeAzure || String.eqb (APIType cfg) APITypeAzureAD
  then
    let baseURL := TrimRight_char (BaseURL cfg) "/" in
    if containsSubstr ["/models"; "/assistants"; "/threads"; "/files"]%string suffix
    then
      (baseURL ++ "/" ++ azureAPIPrefix ++ suffix ++ "?api-version=" ++ APIVersion cfg)%string
    else
      let azureDeploymentName :=
        match args with
        | StringArg model :: _ => GetAzureDeploymentByModel cfg model
        | _ => "UNKNOWN"%string
        end in
      (baseURL ++ "/" ++ azureAPIPrefix ++ "/" ++ azureDeploymentsPrefix ++ "/" ++
       azureDeploymentName ++ suffix ++ "?api-version=" ++ APIVersion cfg)%string
  else (BaseURL cfg ++ suffix)%string.

End URLs.

(** ** Common headers *)

(** The fields of the client configuration that [setCommonHeaders] reads. *)
Record AuthConfig : Type := mkAuthConfig {
  auth_APIType : string;
  authToken : string;
  OrgID : string
}.

Section CommonHeaders.
(** The constants of the package that [setCommonHeaders] uses, and the
    canonical form [http.Header] stores and looks up a key under. *)
Variables APITypeAzure AzureAPIKeyHeader : string.
Variable CanonicalHeaderKey : string -> string.

Definition setCommonHeaders (cfg : AuthConfig) (req : Request) : Request :=
  let set h key value := Header_Set h (CanonicalHeaderKey key) value in
  let h := req_Header req in
  let h :=
    if String.eqb (auth_APIType cfg) APITypeAzure then
      set h AzureAPIKeyHeader (authToken cfg)
    else if negb (String.eqb (authToken cfg) EmptyString) then
      set h "Authorization"%string ("Bearer " ++ authToken cfg)%string
    else h in
  let h :=
    if negb (String.eqb (OrgID cfg) EmptyString) then
      set h "OpenAI-Organization"%string (OrgID cfg)
    else h in
  mkRequest h (req_Body req) (req_Context req).

End CommonHeaders.

(** * Properties *)

(** ** Merging retry options *)

Lemma slices_Contains_elem (s : list Z) (v : Z) :
  slices_Contains s v = true <-> v ∈ s.
Proof.
  unfold slices_Contains. induction s as [|x s IH]; simpl.
  - split; [discriminate | intros H; inversion H].
  - rewrite orb_true_iff, IH, elem_of_cons, Z.eqb_eq. reflexivity.
Qed.

Lemma add_codes_snoc (codes new : list Z) (code : Z) :
  add_codes codes (new ++ [code]) =
  let acc := add_codes codes new in
  if negb (slices_Contains acc code) then acc ++ [code] else acc.
Proof. unfold add_codes. rewrite fold_left_app. reflexivity. Qed.

Lemma add_codes_elem (codes new : list Z) (c : Z) :
  c ∈ add_codes codes new <-> c ∈ codes \/ c ∈ new.
Proof.
  revert c. induction new as [|code new IH] using rev_ind; intros c.
  - simpl. rewrite elem_of_nil. tauto.
  - rewrite add_codes_snoc. cbv zeta.
    destruct (slices_Contains (add_codes codes new) code) eqn:Hc; simpl.
    + apply slices_Contains_elem in Hc.
      rewrite IH, elem_of_app, list_elem_of_singleton.
      rewrite IH in Hc. split; [tauto | intros [?|[?| ->]]; tauto].
    + rewrite !elem_of_app, IH, list_elem_of_singleton. tauto.
Qed.

Lemma add_codes_NoDup (codes new : list Z) :
  NoDup codes -> NoDup (add_codes codes new).
Proof.
  intros Hnd. induction new as [|code new IH] using rev_ind; [exact Hnd|].
  rewrite add_codes_snoc. cbv zeta.
  destruct (slices_Contains (add_codes codes new) code) eqn:Hc; simpl; [exact IH|].
  apply NoDup_app. split; [exact IH|]. split.
  - intros x Hx Hx'. apply list_elem_of_singleton in Hx'. subst x.
    apply slices_Contains_elem in Hx. congruence.
  - apply NoDup_singleton.
Qed.

(** The codes already there stay where they are: new ones go to the end. *)
Lemma add_codes_prefix (codes new : list Z) :
  exists added, add_codes codes new = codes ++ added.
Proof.
  induction new as [|code new [added IH]] using rev_ind.
  - exists []. simpl. symmetry. apply app_nil_r.
  - rewrite add_codes_snoc. cbv zeta. rewrite IH.
    destruct (negb _).
    + exists (added ++ [code]). symmetry. apply app_assoc.
    + exists added. reflexivity.
Qed.

Lemma complete_snoc (r : RetryOptions) (opts : list RetryOptions) (opt : RetryOptions) :
  complete r (opts ++ [opt]) = complete_one (complete r opts) opt.
Proof. unfold complete. rewrite fold_left_app. reflexivity. Qed.

Lemma complete_invariant (r : RetryOptions) (opts : list RetryOptions) :
  0 <= Retries r -> NoDup (RetryCodes r) ->
  0 <= Retries (complete r opts) /\ NoDup (RetryCodes (complete r opts)).
Proof.
  intros Hr Hnd. induction opts as [|opt opts [IHr IHnd]] using rev_ind.
  - split; assumption.
  - rewrite complete_snoc. split; simpl.
    + destruct (0 <? Retries opt) eqn:Hpos; [apply Z.ltb_lt in Hpos; lia | exact IHr].
    + apply add_codes_NoDup, IHnd.
Qed.

(** C9. Merging one more override [opt] onto the policy [r] obtained from
    the default by any overrides [opts]: [retries] is replaced by the
    override's value exactly when that value is positive, and so is
    [retryAboveCode]; the codes of the result are those of [r] and those of
    the override, each once; and [retries] is never negative. *)
Theorem complete_merge_rule (opts : list RetryOptions) (opt : RetryOptions) :
  let r := complete NewDefaultRetryOptions opts in
  let r' := complete NewDefaultRetryOptions (opts ++ [opt]) in
  Retries r' = (if 0 <? Retries opt then Retries opt else Retries r) /\
  RetryAboveCode r' =
    (if 0 <? RetryAboveCode opt then RetryAboveCode opt else RetryAboveCode r) /\
  (forall code, code ∈ RetryCodes r' <-> code ∈ RetryCodes r \/ code ∈ RetryCodes opt) /\
  NoDup (RetryCodes r') /\
  0 <= Retries r'.
Proof.
  intros r r'. subst r r'. rewrite complete_snoc.
  assert (Hinv : forall os, 0 <= Retries (complete NewDefaultRetryOptions os) /\
                            NoDup (RetryCodes (complete NewDefaultRetryOptions os))).
  { intros os. apply complete_invariant; simpl; [lia | apply NoDup_nil_2]. }
  split; [reflexivity|]. split; [reflexivity|]. split.
  - intros code. apply add_codes_elem.
  - rewrite <- complete_snoc. split; apply Hinv.
Qed.

(** ** Machine arithmetic of the loops *)

Lemma wrap64_small (z : Z) : - 2 ^ 63 <= z <= Int.MaxInt64 -> Int.wrap64 z = z.
Proof.
  unfold Int.wrap64, Int.MaxInt64. intros Hz.
  rewrite Z.mod_small by lia. lia.
Qed.

Lemma add64_succ (i : Z) : 0 <= i < Int.MaxInt64 -> Int.add64 i 1 = i + 1.
Proof.
  intros Hi. unfold Int.add64. apply wrap64_small.
  unfold Int.MaxInt64 in *. lia.
Qed.

Lemma Int63n_range (raw n : Z) : 0 < n -> 0 <= Int63n raw n < n.
Proof. intros Hn. unfold Int63n. apply Z.mod_pos_bound. exact Hn. Qed.

(** Up to iteration 35 the delay [baseDelay * 2^i] fits in 64 bits with
    room for the jitter, and nothing wraps. *)
Lemma backoff_exact (raw i : Z) :
  0 <= i <= 35 ->
  backoff raw i = baseDelay * 2 ^ i + Int63n raw baseDelay /\
  0 <= Int63n raw baseDelay < baseDelay.
Proof.
  intros Hi.
  assert (Hj : 0 <= Int63n raw baseDelay < baseDelay)
    by (apply Int63n_range; reflexivity).
  split; [|exact Hj].
  assert (Hp : 1 <= 2 ^ i <= 2 ^ 35).
  { split.
    - apply (Z.pow_le_mono_r 2 0 i); lia.
    - apply Z.pow_le_mono_r; lia. }
  unfold backoff, Int.shl64, Int.mul64, Int.add64.
  rewrite Z.shiftl_mul_pow2 by lia. rewrite Z.mul_1_l.
  change (2 ^ 35) with 34359738368 in Hp.
  unfold baseDelay in *.
  rewrite (wrap64_small (2 ^ i)) by (unfold Int.MaxInt64; lia).
  rewrite (wrap64_small (1000000 * 200 * 2 ^ i)) by (unfold Int.MaxInt64; lia).
  apply wrap64_small. unfold Int.MaxInt64. lia.
Qed.

(** ** The attempt loop of [sendRequest] *)

Section DispatcherFacts.
Context {R : Type} `{!JSON R} `{!JSON ErrorResponse}.
Variable c : Client.
Variable rand : Z -> Z.
Variable v : option (Sink R).
Variable options : RetryOptions.
Variable bodyBytes : option bytes.

#[local] Abbreviation loop := (sendRequest_loop c rand).


Lemma loop_within_budget fuel req i fs :
  i <= Retries options ->
  exists rq res post,
    events (loop (S fuel) req v options bodyBytes i fs) = EvDo i rq res :: post.
Proof.
  intros Hi. simpl. apply Z.leb_le in Hi. rewrite Hi.
  eexists _, _, _. reflexivity.
Qed.



(** A wait that the context wins is the last event, and the loop returns
    the cancellation error. *)
Lemma loop_cancelled fuel req i fs pre j d post :
  events (loop fuel req v options bodyBytes i fs) = pre ++ EvWait j d true :: post ->
  post = [] /\
  outcome (loop fuel req v options bodyBytes i fs) =
    Return (Some (canceled (req_Context req)), v).
Proof.
  revert req i fs pre.
  induction fuel as [|fuel IH]; intros req i fs pre; simpl;
    [destruct pre; discriminate|].
  destruct (i <=? Retries options); [|destruct pre; discriminate].
  assert (Hctx : req_Context (reset_body req bodyBytes) = req_Context req)
    by (destruct bodyBytes; reflexivity).
  simpl. destruct (HTTPClient_Do _ _ _) as [e|resp].
  - destruct pre as [|x pre]; [discriminate|]. intros [= _ Hpost].
    rewrite <- Hctx. apply (IH _ _ _ pre). exact Hpost.
  - destruct (isFailureStatusCode resp); simpl;
      [|destruct pre as [|x [|y pre]]; discriminate].
    destruct (canRetry options (StatusCode resp)); simpl;
      [|destruct pre as [|x [|y pre]]; discriminate].
    destruct (Done_first _ _) eqn:Hdone; simpl.
    + destruct pre as [|x [|y pre]]; [discriminate| |destruct pre; discriminate].
      intros [= _ _ _ <-]. rewrite Hctx. split; reflexivity.
    + destruct pre as [|x [|y pre]]; [discriminate|discriminate|].
      intros [= _ _ Hpost]. rewrite <- Hctx. apply (IH _ _ _ pre). exact Hpost.
Qed.

(** Every wait of the loop is the [select] of its iteration: on the timer
    of that iteration's backoff, and won by the context exactly when the
    context of the request is done first in that iteration. *)
Lemma loop_wait_resolved fuel req i fs pre j d cc post :
  events (loop fuel req v options bodyBytes i fs) = pre ++ EvWait j d cc :: post ->
  d = backoff (rand j) j /\ cc = Done_first (req_Context req) j.
Proof.
  revert req i fs pre.
  induction fuel as [|fuel IH]; intros req i fs pre; simpl;
    [destruct pre; discriminate|].
  destruct (i <=? Retries options); [|destruct pre; discriminate].
  assert (Hctx : req_Context (reset_body req bodyBytes) = req_Context req)
    by (destruct bodyBytes; reflexivity).
  simpl. destruct (HTTPClient_Do _ _ _) as [e|resp].
  - destruct pre as [|x pre]; [discriminate|]. intros [= _ Hpost].
    rewrite <- Hctx. exact (IH _ _ _ pre Hpost).
  - destruct (isFailureStatusCode resp); simpl;
      [|destruct pre as [|x [|y pre]]; discriminate].
    destruct (canRetry options (StatusCode resp)); simpl;
      [|destruct pre as [|x [|y pre]]; discriminate].
    destruct (Done_first _ _) eqn:Hdone; simpl.
    + destruct pre as [|x [|y pre]]; [discriminate| |destruct pre; discriminate].
      intros [= _ <- <- <- _]. rewrite <- Hctx, Hdone. split; reflexivity.
    + destruct pre as [|x [|y pre]]; [discriminate| |].
      * intros [= _ <- <- <- _]. rewrite <- Hctx, Hdone. split; reflexivity.
      * intros [= _ _ Hpost]. rewrite <- Hctx. exact (IH _ _ _ pre Hpost).
Qed.

End DispatcherFacts.

Section StreamDispatcherFacts.
Context {T : Type} `{!JSON ErrorResponse}.
Variable client : Client.
Variable rand : Z -> Z.
Variable options : RetryOptions.
Variable bodyBytes : option bytes.

#[local] Abbreviation stream_loop := (sendRequestStream_loop (T := T) client rand).

(** The same for the loop of [sendRequestStream]. *)
Lemma stream_loop_cancelled fuel req i fs pre j d post :
  events (stream_loop fuel req options bodyBytes i fs) = pre ++ EvWait j d true :: post ->
  post = [] /\
  outcome (stream_loop fuel req options bodyBytes i fs) =
    Return (None, Some (canceled (req_Context req))).
Proof.
  revert req i fs pre.
  induction fuel as [|fuel IH]; intros req i fs pre; simpl;
    [destruct pre; discriminate|].
  destruct (i <=? Retries options); [|destruct pre; discriminate].
  assert (Hctx : req_Context (reset_body req bodyBytes) = req_Context req)
    by (destruct bodyBytes; reflexivity).
  simpl. destruct (HTTPClient_Do _ _ _) as [e|resp].
  - destruct pre as [|x pre]; [discriminate|]. intros [= _ Hpost].
    rewrite <- Hctx. apply (IH _ _ _ pre). exact Hpost.
  - destruct (isFailureStatusCode resp); simpl;
      [|destruct pre as [|x [|y pre]]; discriminate].
    destruct (canRetry options (StatusCode resp)); simpl;
      [|destruct pre as [|x [|y pre]]; discriminate].
    destruct (Done_first _ _) eqn:Hdone; simpl.
    + destruct pre as [|x [|y pre]]; [discriminate| |destruct pre; discriminate].
      intros [= _ _ _ <-]. rewrite Hctx. split; reflexivity.
    + destruct pre as [|x [|y pre]]; [discriminate|discriminate|].
      intros [= _ _ Hpost]. rewrite <- Hctx. apply (IH _ _ _ pre). exact Hpost.
Qed.

(** Every wait of the loop of [sendRequestStream] is decided in the same
    way. *)
Lemma stream_loop_wait_resolved fuel req i fs pre j d cc post :
  events (stream_loop fuel req options bodyBytes i fs) = pre ++ EvWait j d cc :: post ->
  d = backoff (rand j) j /\ cc = Done_first (req_Context req) j.
Proof.
  revert req i fs pre.
  induction fuel as [|fuel IH]; intros req i fs pre; simpl;
    [destruct pre; discriminate|].
  destruct (i <=? Retries options); [|destruct pre; discriminate].
  assert (Hctx : req_Context (reset_body req bodyBytes) = req_Context req)
    by (destruct bodyBytes; reflexivity).
  simpl. destruct (HTTPClient_Do _ _ _) as [e|resp].
  - destruct pre as [|x pre]; [discriminate|]. intros [= _ Hpost].
    rewrite <- Hctx. exact (IH _ _ _ pre Hpost).
  - destruct (isFailureStatusCode resp); simpl;
      [|destruct pre as [|x [|y pre]]; discriminate].
    destruct (canRetry options (StatusCode resp)); simpl;
      [|destruct pre as [|x [|y pre]]; discriminate].
    destruct (Done_first _ _) eqn:Hdone; simpl.
    + destruct pre as [|x [|y pre]]; [discriminate| |destruct pre; discriminate].
      intros [= _ <- <- <- _]. rewrite <- Hctx, Hdone. split; reflexivity.
    + destruct pre as [|x [|y pre]]; [discriminate| |].
      * intros [= _ <- <- <- _]. rewrite <- Hctx, Hdone. split; reflexivity.
      * intros [= _ _ Hpost]. rewrite <- Hctx. exact (IH _ _ _ pre Hpost).
Qed.

(** With fuel for the iterations left, the loop of [sendRequestStream]
    returns. *)
Lemma stream_loop_outcome_returns fuel req i fs :
  0 <= i -> 0 <= Retries options < Int.MaxInt64 ->
  (Z.to_nat (Retries options + 1 - i) < fuel)%nat ->
  (0 < i -> fs <> []) ->
  exists r, outcome (stream_loop fuel req options bodyBytes i fs) = Return r.
Proof.
  intros Hi Hmax. revert req i fs Hi.
  induction fuel as [|fuel IH]; intros req i fs Hi Hfuel Hfs; [lia|].
  simpl. destruct (i <=? Retries options) eqn:Hle.
  - apply Z.leb_le in Hle.
    assert (Hnext : Int.add64 i 1 = i + 1) by (apply add64_succ; lia).
    simpl. rewrite Hnext.
    destruct (HTTPClient_Do _ _ _) as [e|resp].
    + apply IH; [lia | lia | intros _; destruct fs; discriminate].
    + destruct (isFailureStatusCode resp); simpl; [|eexists; reflexivity].
      destruct (canRetry options (StatusCode resp)); simpl; [|eexists; reflexivity].
      destruct (Done_first _ _); simpl; [eexists; reflexivity|].
      apply IH; [lia | lia | intros _; destruct fs; discriminate].
  - apply Z.leb_gt in Hle. simpl. unfold last_failure.
    destruct (last fs) eqn:Hlast; [eexists; reflexivity|].
    apply last_None in Hlast. exfalso. apply Hfs; [lia | exact Hlast].
Qed.

End StreamDispatcherFacts.

(** ** The dispatchers *)

(** [sendRequest] either gives up on the request body before any attempt,
    or it is its loop from iteration 0, on the request with its headers
    set and with no failure recorded. *)
Lemma sendRequest_is_loop {R} `{!JSON R} `{!JSON ErrorResponse}
    (c : Client) (rand : Z -> Z) (req : Request) (v : option (Sink R))
    (retryOpts : list RetryOptions) :
  let options := complete NewDefaultRetryOptions retryOpts in
  events (sendRequest c rand req v retryOpts) = [] \/
  exists req' bodyBytes,
    req_Context req' = req_Context req /\
    sendRequest c rand req v retryOpts =
    sendRequest_loop c rand (loop_fuel options) req' v options bodyBytes 0 [].
Proof.
  intros options. unfold sendRequest. fold options.
  set (req1 := mkRequest _ _ _).
  set (req2 := if String.eqb _ _ then _ else _).
  assert (Hctx : req_Context req2 = req_Context req)
    by (subst req2; destruct (String.eqb _ _); reflexivity).
  destruct (req_Body req2) as [body|].
  - destruct (ReadAll body) as [b [e|]]; [left; reflexivity|].
    right. eexists _, (Some b). split; [|reflexivity]. exact Hctx.
  - right. exists req2, None. split; [exact Hctx | reflexivity].
Qed.

Lemma sendRequestStream_is_loop {T} `{!JSON ErrorResponse}
    (client : Client) (rand : Z -> Z) (req : Request)
    (retryOpts : list RetryOptions) :
  let options := complete NewDefaultRetryOptions retryOpts in
  events (sendRequestStream (T := T) client rand req retryOpts) = [] \/
  exists req' bodyBytes,
    req_Context req' = req_Context req /\
    sendRequestStream (T := T) client rand req retryOpts =
    sendRequestStream_loop client rand (loop_fuel options) req' options bodyBytes 0 [].
Proof.
  intros options. unfold sendRequestStream. fold options.
  set (req4 := mkRequest _ _ _).
  assert (Hctx : req_Context req4 = req_Context req) by reflexivity.
  destruct (req_Body req4) as [body|].
  - destruct (ReadAll body) as [b [e|]]; [left; reflexivity|].
    right. eexists _, (Some b). split; [|reflexivity]. exact Hctx.
  - right. exists req4, None. split; [exact Hctx | reflexivity].
Qed.


(** C8. In a run of [sendRequest] or of [sendRequestStream], every backoff
    wait is decided by the context of the caller's request in that
    iteration; and a wait during which that context is cancelled is the
    last thing the dispatcher does: no attempt follows, whatever the budget
    left, and the call returns the cancellation error. *)
Theorem cancel_during_backoff_ends_call {R T} `{!JSON R} `{!JSON ErrorResponse}
    (c : Client) (rand : Z -> Z) (req : Request) (v : option (Sink R))
    (retryOpts : list RetryOptions) (pre : list Event) (i d : Z) (cancelled : bool)
    (post : list Event) :
  (events (sendRequest c rand req v retryOpts) = pre ++ EvWait i d cancelled :: post ->
   cancelled = Done_first (req_Context req) i /\
   (Done_first (req_Context req) i = true ->
    post = [] /\
    outcome (sendRequest c rand req v retryOpts) =
      Return (Some (canceled (req_Context req)), v))) /\
  (events (sendRequestStream (T := T) c rand req retryOpts) =
     pre ++ EvWait i d cancelled :: post ->
   cancelled = Done_first (req_Context req) i /\
   (Done_first (req_Context req) i = true ->
    post = [] /\
    outcome (sendRequestStream (T := T) c rand req retryOpts) =
      Return (None, Some (canceled (req_Context req))))).
Proof.
  split; intros Hev.
  - destruct (sendRequest_is_loop c rand req v retryOpts)
      as [Hnil | (req' & b & Hctx & Hloop)].
    + rewrite Hnil in Hev. destruct pre; discriminate.
    + rewrite Hloop in Hev |- *. rewrite <- Hctx.
      destruct (loop_wait_resolved c rand v _ b _ req' 0 [] pre i d cancelled post Hev)
        as [_ Hcc].
      split; [exact Hcc|]. intros Hdone. rewrite Hdone in Hcc. subst cancelled.
      eapply loop_cancelled. exact Hev.
  - destruct (sendRequestStream_is_loop (T := T) c rand req retryOpts)
      as [Hnil | (req' & b & Hctx & Hloop)].
    + rewrite Hnil in Hev. destruct pre; discriminate.
    + rewrite Hloop in Hev |- *. rewrite <- Hctx.
      destruct (stream_loop_wait_resolved (T := T) c rand _ b _ req' 0 [] pre i d
                  cancelled post Hev) as [_ Hcc].
      split; [exact Hcc|]. intros Hdone. rewrite Hdone in Hcc. subst cancelled.
      eapply stream_loop_cancelled. exact Hev.
Qed.

(** With a body that can be saved, [sendRequest] is its loop. *)
Lemma sendRequest_readable {R} `{!JSON R} `{!JSON ErrorResponse}
    (c : Client) (rand : Z -> Z) (req : Request) (v : option (Sink R))
    (retryOpts : list RetryOptions) :
  body_readable req ->
  exists req' bodyBytes,
    req_Context req' = req_Context req /\
    sendRequest c rand req v retryOpts =
    sendRequest_loop c rand (loop_fuel (complete NewDefaultRetryOptions retryOpts))
      req' v (complete NewDefaultRetryOptions retryOpts) bodyBytes 0 [].
Proof.
  intros Hbody. unfold sendRequest.
  set (req1 := mkRequest _ _ _).
  set (req2 := if String.eqb _ _ then _ else _).
  assert (Hctx : req_Context req2 = req_Context req)
    by (subst req2; destruct (String.eqb _ _); reflexivity).
  assert (Hb : req_Body req2 = req_Body req)
    by (subst req2; destruct (String.eqb _ _); reflexivity).
  destruct (req_Body req2) as [body|] eqn:Hreq.
  - specialize (Hbody body (eq_sym Hb)).
    destruct (ReadAll body) as [b [e|]]; [discriminate|].
    eexists _, (Some b). split; [|reflexivity]. exact Hctx.
  - exists req2, None. split; [exact Hctx | reflexivity].
Qed.

(** C1, as the code has it. With the options [{Retries: 2, RetryAboveCode:
    above, RetryCodes: codes}] where [above] is at least 400 and 400 is not
    among [codes], and a transport that answers the first attempt with
    status 400: [sendRequest] makes exactly one attempt, waits for nothing,
    and returns the error for a status that is not retried, built from the
    status code and status text; the classified error of [handleErrorResp]
    goes to the recorded failures. *)
Theorem status_400_not_retried_above_400 {R} `{!JSON R} `{!JSON ErrorResponse}
    (c : Client) (rand : Z -> Z) (req : Request) (v : option (Sink R))
    (above : Z) (codes : list Z) (resp : Response) :
  let options := mkRetryOptions 2 above codes in
  let run := sendRequest c rand req v [options] in
  400 <= above ->
  400 ∉ codes ->
  body_readable req ->
  (forall rq, HTTPClient_Do (config c) 0 rq = DoResp resp) ->
  StatusCode resp = 400 ->
  attempts run = 1%nat /\
  waits run = [] /\
  outcome run = Return (Some (non_retriable resp), v) /\
  Sprintf "#%d/%d error response received: %v"
    [IntArg 1; IntArg 3; ErrArg (Some (handleErrorResp resp))] ∈ failures run.
Proof.
  intros options run Habove Hcodes Hbody Hdo Hstatus. subst run.
  destruct (sendRequest_readable c rand req v [options] Hbody)
    as (req' & b & _ & ->).
  assert (Hopt : complete NewDefaultRetryOptions [options] =
                 mkRetryOptions 2 above (add_codes [] codes)).
  { unfold complete, complete_one, options. simpl.
    destruct (0 <? above) eqn:Hpos; [reflexivity | apply Z.ltb_ge in Hpos; lia]. }
  rewrite Hopt.
  assert (Hno : canRetry (mkRetryOptions 2 above (add_codes [] codes)) 400 = false).
  { unfold canRetry. simpl.
    destruct (above <? 400) eqn:Hlt; [apply Z.ltb_lt in Hlt; lia|].
    rewrite andb_false_r.
    destruct (slices_Contains (add_codes [] codes) 400) eqn:Hin; [|reflexivity].
    apply slices_Contains_elem, add_codes_elem in Hin.
    destruct Hin as [Hin | Hin]; [inversion Hin | contradiction]. }
  unfold loop_fuel. simpl. rewrite Hdo.
  unfold isFailureStatusCode. rewrite Hstatus, Hno. simpl.
  split; [reflexivity|]. split; [reflexivity|]. split.
  - unfold non_retriable. rewrite Hstatus. reflexivity.
  - apply elem_of_cons. left. reflexivity.
Qed.

(** C6. With the options [{Retries: 2, RetryCodes: [503]}], a transport
    that answers the three attempts with status 503, 503 and 200, and a
    context that is not cancelled during the waits: [sendRequest] makes
    exactly three attempts; it waits [baseDelay * 1 + j0] before the second
    and [baseDelay * 2 + j1] before the third, each jitter within
    [[0, baseDelay)] and [baseDelay] being 200 ms; and it returns what
    decoding the body of the third response gives. *)
Theorem retried_503_503_then_200 {R} `{!JSON R} `{!JSON ErrorResponse}
    (c : Client) (rand : Z -> Z) (req : Request) (v : option (Sink R))
    (r0 r1 r2 : Response) :
  let run := sendRequest c rand req v [mkRetryOptions 2 0 [503]] in
  body_readable req ->
  (forall rq, HTTPClient_Do (config c) 0 rq = DoResp r0) -> StatusCode r0 = 503 ->
  (forall rq, HTTPClient_Do (config c) 1 rq = DoResp r1) -> StatusCode r1 = 503 ->
  (forall rq, HTTPClient_Do (config c) 2 rq = DoResp r2) -> StatusCode r2 = 200 ->
  Done_first (req_Context req) 0 = false ->
  Done_first (req_Context req) 1 = false ->
  attempts run = 3%nat /\
  (exists rq j0 j1,
     0 <= j0 < baseDelay /\ 0 <= j1 < baseDelay /\
     events run =
       [EvDo 0 rq (DoResp r0); EvWait 0 (baseDelay * 1 + j0) false;
        EvDo 1 rq (DoResp r1); EvWait 1 (baseDelay * 2 + j1) false;
        EvDo 2 rq (DoResp r2)]) /\
  baseDelay = 200 * 1000000 /\
  outcome run = Return (sendRequest_success r2 v).
Proof.
  intros run Hbody Hdo0 Hs0 Hdo1 Hs1 Hdo2 Hs2 Hc0 Hc1. subst run.
  destruct (sendRequest_readable c rand req v [mkRetryOptions 2 0 [503]] Hbody)
    as (req' & b & Hctx & ->).
  change (complete NewDefaultRetryOptions [mkRetryOptions 2 0 [503]])
    with (mkRetryOptions 2 1 [503]).
  destruct (backoff_exact (rand 0) 0 ltac:(lia)) as [Hb0 Hj0].
  destruct (backoff_exact (rand 1) 1 ltac:(lia)) as [Hb1 Hj1].
  assert (H01 : Int.add64 0 1 = 1) by reflexivity.
  assert (H12 : Int.add64 1 1 = 2) by reflexivity.
  unfold loop_fuel, attempts.
  destruct b as [b|]; simpl;
    rewrite Hdo0; unfold isFailureStatusCode, canRetry; rewrite Hs0; simpl;
    rewrite Hctx, Hc0, ?H01; simpl;
    rewrite Hdo1, Hs1; simpl;
    rewrite ?Hctx, ?H01, Hc1, ?H12; simpl;
    rewrite Hdo2, Hs2; simpl;
    (split; [reflexivity|]); (split; [|split; reflexivity]);
    eexists _, (Int63n (rand 0) baseDelay), (Int63n (rand 1) baseDelay);
    (split; [exact Hj0|]); (split; [exact Hj1|]);
    rewrite Hb0, Hb1; reflexivity.
Qed.

(** ** Lines *)

Lemma cut_line_app (s line rest : bytes) :
  cut_line s = Some (line, rest) -> s = line ++ rest /\ (0 < length line)%nat.
Proof.
  revert line rest. induction s as [|c s IH]; intros line rest; simpl; [discriminate|].
  destruct (Bytes.byte_eqb c Bytes.LF).
  - intros [= <- <-]. split; [reflexivity | simpl; lia].
  - destruct (cut_line s) as [[line' rest']|]; [|discriminate].
    intros [= <- <-]. destruct (IH line' rest' eq_refl) as [-> _].
    split; [reflexivity | simpl; lia].
Qed.

Lemma cut_line_one_line (raw rest : bytes) :
  one_line raw = true -> cut_line (raw ++ rest) = Some (raw, rest).
Proof.
  unfold one_line. induction raw as [|c raw IH]; simpl; [discriminate|].
  destruct (Bytes.byte_eqb c Bytes.LF).
  - destruct raw; [reflexivity | discriminate].
  - destruct (cut_line raw) as [[line [|]]|] eqn:Hcut; try discriminate.
    intros _. rewrite (IH eq_refl).
    apply cut_line_app in Hcut. destruct Hcut as [-> _].
    rewrite app_nil_r. reflexivity.
Qed.

Lemma one_line_nonempty (raw : bytes) : one_line raw = true -> (0 < length raw)%nat.
Proof. destruct raw; [discriminate | simpl; lia]. Qed.

Lemma is_noise_one_line (raw : bytes) : is_noise raw = true -> one_line raw = true.
Proof. unfold is_noise. intros H. apply andb_true_iff in H. tauto. Qed.

Lemma noise_lines_length (ns : list bytes) :
  Forall (fun raw => is_noise raw = true) ns -> (length ns <= length (concat ns))%nat.
Proof.
  induction 1 as [|raw ns Hraw _ IH]; simpl; [lia|].
  apply is_noise_one_line, one_line_nonempty in Hraw.
  rewrite length_app. lia.
Qed.

Lemma HasPrefix_app (s p q : bytes) :
  Bytes.HasPrefix s (p ++ q) = true -> Bytes.HasPrefix s p = true.
Proof.
  revert s. induction p as [|x p IH]; intros s; simpl;
    [destruct s; reflexivity|].
  destruct s as [|c s]; [discriminate|].
  simpl. intros H. apply andb_true_iff in H. destruct H as [Hx H].
  rewrite Hx. exact (IH s H).
Qed.

(** A line that starts with [errorPrefix] starts with [headerData]. *)
Lemma errorPrefix_headerData (s : bytes) :
  Bytes.HasPrefix s headerData = false -> Bytes.HasPrefix s errorPrefix = false.
Proof.
  intros Hno. destruct (Bytes.HasPrefix s errorPrefix) eqn:Herr; [|reflexivity].
  change errorPrefix with (headerData ++ drop (length headerData) errorPrefix) in Herr.
  apply HasPrefix_app in Herr. congruence.
Qed.

Lemma wrapU64_small (z : Z) : 0 <= z <= Int.MaxUint64 -> Int.wrapU64 z = z.
Proof.
  unfold Int.wrapU64, Int.MaxUint64. intros Hz. apply Z.mod_small. lia.
Qed.

(** ** The loop of [processLines] *)

Section StreamReaderFacts.
Context {T : Type} `{!streamable T} `{!JSON (option ErrorResponse)}.

(** One pass of the loop over a noise line. *)
Lemma loop_noise_line fuel (l : locals) (stream : streamReader T) (raw rest : bytes) :
  hasErrorPrefix l = false ->
  is_noise raw = true ->
  unread (reader stream) = raw ++ rest ->
  processLines_loop (S fuel) l stream =
    let l' := mkLocals (Int.wrapU64 (emptyMessagesCount l + 1)) false in
    let stream' := past_noise stream [raw] rest in
    if emptyMessagesLimit stream <? emptyMessagesCount l'
    then mkCall (Return (zero, Some ErrTooManyEmptyStreamMessages)) stream' l'
    else processLines_loop fuel l' stream'.
Proof.
  intros Hflag Hnoise Hbody. unfold is_noise in Hnoise.
  apply andb_true_iff in Hnoise. destruct Hnoise as [Hline Hpre].
  apply negb_true_iff in Hpre.
  simpl. unfold ReadBytes. rewrite Hbody, (cut_line_one_line _ _ Hline).
  rewrite Hflag. simpl.
  rewrite (errorPrefix_headerData _ Hpre), Hpre, Hflag. simpl.
  unfold past_noise, errBuffer_Write, set_reader. simpl.
  rewrite app_nil_r. reflexivity.
Qed.

(** The loop over noise lines that stay within the limit. *)
Lemma loop_noise_lines (ns : list bytes) fuel (l : locals) (stream : streamReader T)
    (rest : bytes) :
  hasErrorPrefix l = false ->
  Forall (fun raw => is_noise raw = true) ns ->
  0 <= emptyMessagesCount l ->
  emptyMessagesCount l + Z.of_nat (length ns) <= emptyMessagesLimit stream ->
  emptyMessagesLimit stream <= Int.MaxUint64 ->
  unread (reader stream) = concat ns ++ rest ->
  processLines_loop (length ns + fuel) l stream =
  processLines_loop fuel
    (mkLocals (emptyMessagesCount l + Z.of_nat (length ns)) false)
    (past_noise stream ns rest).
Proof.
  intros Hflag Hns. revert l stream Hflag.
  induction Hns as [|raw ns Hraw _ IH]; intros l stream Hflag Hpos Hlim Hmax Hbody.
  - simpl in *. destruct l as [n flag]. simpl in *. subst flag.
    rewrite Z.add_0_r. destruct stream as [lim fin [body tl] rsp buf hdr].
    unfold past_noise. simpl in *. subst body. rewrite app_nil_r. reflexivity.
  - simpl length in *. simpl concat in Hbody. rewrite <- app_assoc in Hbody.
    change (S (length ns) + fuel)%nat with (S (length ns + fuel)).
    rewrite (loop_noise_line _ l stream raw (concat ns ++ rest) Hflag Hraw Hbody).
    cbv zeta. rewrite wrapU64_small by lia. simpl emptyMessagesCount.
    destruct (emptyMessagesLimit stream <? emptyMessagesCount l + 1) eqn:Hlt;
      [apply Z.ltb_lt in Hlt; lia|].
    rewrite IH; simpl; try reflexivity; try lia.
    f_equal.
    + f_equal. lia.
    + unfold past_noise. simpl. rewrite app_nil_r, <- app_assoc. reflexivity.
Qed.

(** One pass of the loop over a genuine data frame. *)
Lemma loop_data_frame fuel (l : locals) (stream : streamReader T) (raw rest : bytes) :
  hasErrorPrefix l = false ->
  is_data raw = true ->
  unread (reader stream) = raw ++ rest ->
  processLines_loop (S fuel) l stream =
    let stream' := on_body stream rest in
    if Bytes.eqb (payload raw) doneMarker
    then mkCall (Return (zero, Some io_EOF)) (set_isFinished stream' true) l
    else
      match json_Unmarshal (payload raw) zero with
      | (_, Some e) => mkCall (Return (zero, Some e)) stream' l
      | (response, None) => mkCall (Return (response, None)) stream' l
      end.
Proof.
  intros Hflag Hdata Hbody. unfold is_data in Hdata.
  apply andb_true_iff in Hdata. destruct Hdata as [Hdata Herr].
  apply andb_true_iff in Hdata. destruct Hdata as [Hline Hpre].
  apply negb_true_iff in Herr.
  simpl. unfold ReadBytes. rewrite Hbody, (cut_line_one_line _ _ Hline).
  rewrite Hflag. simpl. rewrite Herr, Hpre, Hflag. simpl.
  fold (payload raw). unfold on_body.
  destruct (Bytes.eqb (payload raw) doneMarker); [reflexivity|].
  destruct (json_Unmarshal (payload raw) zero) as [x [e|]]; reflexivity.
Qed.

(** [processLines] past noise lines within the limit: it is the loop, with
    fuel left for the rest of the body, after those lines. *)
Lemma processLines_past_noise (stream : streamReader T) (ns : list bytes) (rest : bytes) :
  Forall (fun raw => is_noise raw = true) ns ->
  Z.of_nat (length ns) <= emptyMessagesLimit stream ->
  emptyMessagesLimit stream <= Int.MaxUint64 ->
  unread (reader stream) = concat ns ++ rest ->
  exists fuel,
    (length rest <= fuel)%nat /\
    processLines stream =
    processLines_loop (S fuel) (mkLocals (Z.of_nat (length ns)) false)
      (past_noise stream ns rest).
Proof.
  intros Hns Hlim Hmax Hbody. unfold processLines.
  pose proof (noise_lines_length ns Hns) as Hlen.
  exists (length (unread (reader stream)) - length ns)%nat. split.
  - rewrite Hbody, length_app. lia.
  - replace (S (length (unread (reader stream))))
      with (length ns + S (length (unread (reader stream)) - length ns))%nat
      by (rewrite Hbody, length_app; lia).
    rewrite (loop_noise_lines ns _ locals_at_entry stream rest); simpl;
      try assumption; try reflexivity; lia.
Qed.

End StreamReaderFacts.

Section StreamReaderTheorems.
Context {T : Type} `{!streamable T} `{!JSON (option ErrorResponse)}.

(** [processLines] always returns: the fuel it takes is enough. *)
Lemma loop_returns fuel (l : locals) (stream : streamReader T) :
  (length (unread (reader stream)) < fuel)%nat ->
  exists r, ended (processLines_loop fuel l stream) = Return r.
Proof.
  revert l stream. induction fuel as [|fuel IH]; intros l stream Hfuel; [lia|].
  simpl. unfold ReadBytes.
  destruct (cut_line (unread (reader stream))) as [[line rest]|] eqn:Hcut; simpl.
  - destruct (hasErrorPrefix l) eqn:Hflag; simpl.
    + destruct (unmarshalError _); eexists; reflexivity.
    + set (l1 := if Bytes.HasPrefix _ errorPrefix then _ else l).
      destruct (negb _ || hasErrorPrefix l1).
      * destruct (_ <? _); [eexists; reflexivity|].
        apply IH. simpl. apply cut_line_app in Hcut. destruct Hcut as [Hcut Hline].
        rewrite Hcut, length_app in Hfuel. lia.
      * destruct (Bytes.eqb _ doneMarker); [eexists; reflexivity|].
        destruct (json_Unmarshal _ _) as [x [e|]]; eexists; reflexivity.
  - destruct (unmarshalError _); eexists; reflexivity.
Qed.

Lemma processLines_returns (stream : streamReader T) :
  exists r, ended (processLines stream) = Return r.
Proof. apply loop_returns. lia. Qed.

(** The loop leaves the limit of the reader alone, and its counter goes
    up only, by one at a time, until it is one above the limit. *)
Lemma loop_count_monotone fuel (l : locals) (stream : streamReader T) :
  0 <= emptyMessagesCount l <= emptyMessagesLimit stream ->
  emptyMessagesLimit stream < Int.MaxUint64 ->
  emptyMessagesCount l
    <= emptyMessagesCount (at_exit (processLines_loop fuel l stream))
    <= emptyMessagesLimit stream + 1.
Proof.
  revert l stream. induction fuel as [|fuel IH]; intros l stream Hl Hmax;
    [simpl; lia|].
  simpl. unfold ReadBytes.
  destruct (cut_line (unread (reader stream))) as [[line rest]|]; simpl.
  - destruct (hasErrorPrefix l) eqn:Hflag; simpl.
    + destruct (unmarshalError _); simpl; lia.
    + set (l1 := if Bytes.HasPrefix _ errorPrefix then _ else l).
      assert (Hl1 : emptyMessagesCount l1 = emptyMessagesCount l)
        by (subst l1; destruct (Bytes.HasPrefix _ errorPrefix); reflexivity).
      destruct (negb _ || hasErrorPrefix l1).
      * rewrite Hl1, wrapU64_small by lia.
        destruct (_ <? _) eqn:Hlt; simpl; [lia|].
        apply Z.ltb_ge in Hlt.
        match goal with
        | |- context [processLines_loop fuel ?l' ?s'] =>
            specialize (IH l' s'); simpl in IH
        end.
        lia.
      * destruct (Bytes.eqb _ doneMarker); simpl; [lia|].
        destruct (json_Unmarshal _ _) as [x [e|]]; simpl; lia.
  - destruct (unmarshalError _); simpl; lia.
Qed.

(** A reader that has finished answers [io.EOF] and stays as it is. *)
Lemma Recv_finished (stream : streamReader T) :
  isFinished stream = true -> Recv stream = (Return (zero, Some io_EOF), stream).
Proof. intros Hfin. unfold Recv. rewrite Hfin. reflexivity. Qed.

Lemma Recv_times_finished (n : nat) (stream : streamReader T) :
  isFinished stream = true ->
  Recv_times n stream = (repeat (Return (zero, Some io_EOF)) n, stream).
Proof.
  intros Hfin. induction n as [|n IH]; simpl; [reflexivity|].
  rewrite (Recv_finished _ Hfin), IH. reflexivity.
Qed.

(** C2, as the code has it. The counter of empty messages is a local
    variable of [processLines]: it is zero when a call starts; during the
    call it only goes up, and never beyond one above the limit (for a limit
    below the largest [uint]); and a call that returns a data frame after
    the noise lines [ns] ends with the counter at the number of those
    lines, whatever the reader has read in earlier calls. *)
Theorem empty_message_count_is_per_call (stream : streamReader T)
    (ns : list bytes) (frame rest : bytes) :
  0 <= emptyMessagesLimit stream < Int.MaxUint64 ->
  Forall (fun raw => is_noise raw = true) ns ->
  Z.of_nat (length ns) <= emptyMessagesLimit stream ->
  is_data frame = true ->
  emptyMessagesCount locals_at_entry = 0 /\
  (forall fuel l s,
     emptyMessagesLimit s = emptyMessagesLimit stream ->
     0 <= emptyMessagesCount l <= emptyMessagesLimit s ->
     emptyMessagesCount l
       <= emptyMessagesCount (at_exit (processLines_loop fuel l s))
       <= emptyMessagesLimit s + 1) /\
  emptyMessagesCount
    (at_exit (processLines (on_body stream (concat ns ++ frame ++ rest))))
  = Z.of_nat (length ns).
Proof.
  intros Hlim Hns Hlen Hdata. split; [reflexivity|]. split.
  - intros fuel l s Hs Hl. apply loop_count_monotone; [exact Hl | lia].
  - destruct (processLines_past_noise
                (on_body stream (concat ns ++ frame ++ rest)) ns (frame ++ rest)
                Hns Hlen ltac:(simpl; lia) eq_refl)
      as (fuel & _ & ->).
    rewrite (loop_data_frame fuel _ _ frame rest); try reflexivity; try assumption.
    cbv zeta. destruct (Bytes.eqb _ _); [reflexivity|].
    destruct (json_Unmarshal _ _) as [x [e|]]; reflexivity.
Qed.

(** C3, as the code has it. When the call of [Recv] passes nothing but
    noise lines, within the limit, and then reads the frame [data: [DONE]],
    it returns [io.EOF] and sets [isFinished]; from then on every call of
    [Recv] returns [io.EOF] again and leaves the reader, its body included,
    exactly as it is. (After an error lead, the call reads the next line
    without looking at it, the frame [data: [DONE]] included.) *)
Theorem done_marker_is_terminal (stream : streamReader T)
    (ns : list bytes) (done_line rest : bytes) :
  isFinished stream = false ->
  Forall (fun raw => is_noise raw = true) ns ->
  Z.of_nat (length ns) <= emptyMessagesLimit stream <= Int.MaxUint64 ->
  one_line done_line = true ->
  Bytes.TrimSpace done_line = headerData ++ doneMarker ->
  unread (reader stream) = concat ns ++ done_line ++ rest ->
  let stream' := snd (Recv stream) in
  fst (Recv stream) = Return (zero, Some io_EOF) /\
  stream' = set_isFinished (past_noise stream ns rest) true /\
  isFinished stream' = true /\
  forall n, Recv_times n stream' = (repeat (Return (zero, Some io_EOF)) n, stream').
Proof.
  intros Hfin Hns Hlim Hline Htrim Hbody.
  assert (Hdata : is_data done_line = true)
    by (unfold is_data; rewrite Hline, Htrim; reflexivity).
  assert (Hpay : Bytes.eqb (payload done_line) doneMarker = true)
    by (unfold payload; rewrite Htrim; reflexivity).
  assert (HRecv : Recv stream =
                  (Return (zero, Some io_EOF),
                   set_isFinished (past_noise stream ns rest) true)).
  { unfold Recv. rewrite Hfin.
    destruct (processLines_past_noise stream ns (done_line ++ rest)
                Hns ltac:(lia) ltac:(lia) Hbody)
      as (fuel & _ & ->).
    rewrite (loop_data_frame fuel _ _ done_line rest); try reflexivity; try assumption.
    cbv zeta. rewrite Hpay. reflexivity. }
  cbv zeta. rewrite HRecv. simpl.
  split; [reflexivity|]. split; [reflexivity|]. split; [reflexivity|].
  intros n. apply Recv_times_finished. reflexivity.
Qed.

(** C4. For a reader whose limit is [N], below the largest [uint]: a call
    of [Recv] that meets [N] noise lines and then a data frame that decodes
    returns the decoded payload; a call that meets [N + 1] noise lines
    fails with [ErrTooManyEmptyStreamMessages]. *)
Theorem noise_within_limit_then_data (stream : streamReader T)
    (ns : list bytes) (extra frame rest : bytes) (value : T) :
  isFinished stream = false ->
  emptyMessagesLimit stream = Z.of_nat (length ns) ->
  emptyMessagesLimit stream < Int.MaxUint64 ->
  Forall (fun raw => is_noise raw = true) ns ->
  is_noise extra = true ->
  is_data frame = true ->
  Bytes.eqb (payload frame) doneMarker = false ->
  json_Unmarshal (payload frame) zero = (value, None) ->
  fst (Recv (on_body stream (concat ns ++ frame ++ rest))) = Return (value, None) /\
  fst (Recv (on_body stream (concat ns ++ extra ++ rest)))
  = Return (zero, Some ErrTooManyEmptyStreamMessages).
Proof.
  intros Hfin HN Hmax Hns Hextra Hdata Hnot Hdec. split.
  - unfold Recv. change (isFinished (on_body stream _)) with (isFinished stream).
    rewrite Hfin. cbv iota.
    destruct (processLines_past_noise
                (on_body stream (concat ns ++ frame ++ rest)) ns (frame ++ rest)
                Hns ltac:(simpl; lia) ltac:(simpl; lia) eq_refl)
      as (fuel & _ & ->).
    rewrite (loop_data_frame fuel _ _ frame rest); try reflexivity; try assumption.
    cbv zeta. rewrite Hnot, Hdec. reflexivity.
  - unfold Recv. change (isFinished (on_body stream _)) with (isFinished stream).
    rewrite Hfin. cbv iota.
    destruct (processLines_past_noise
                (on_body stream (concat ns ++ extra ++ rest)) ns (extra ++ rest)
                Hns ltac:(simpl; lia) ltac:(simpl; lia) eq_refl)
      as (fuel & _ & ->).
    rewrite (loop_noise_line fuel _ _ extra rest); try reflexivity; try assumption.
    cbv zeta. simpl. rewrite wrapU64_small by lia.
    destruct (_ <? _) eqn:Hlt; [reflexivity | apply Z.ltb_ge in Hlt; lia].
Qed.

End StreamReaderTheorems.

Section StreamReaderErrors.
Context {T : Type} `{!streamable T} `{!JSON (option ErrorResponse)}.

(** One pass of the loop when the read fails or an error lead was seen:
    the call ends here, on what [unmarshalError] makes of the buffer. *)
Lemma loop_read_failure fuel (l : locals) (stream : streamReader T) :
  cut_line (unread (reader stream)) = None \/ hasErrorPrefix l = true ->
  ended (processLines_loop (S fuel) l stream) =
    match unmarshalError stream with
    | Some respErr => Return (zero, Some (stream_error respErr))
    | None => Return (zero, snd (fst (ReadBytes (reader stream))))
    end.
Proof.
  intros Hcase. simpl. unfold ReadBytes.
  destruct (cut_line (unread (reader stream))) as [[line rest]|]; simpl.
  - destruct Hcase as [Hcut | ->]; [discriminate|]. simpl.
    change (unmarshalError (set_reader stream _)) with (unmarshalError stream).
    destruct (unmarshalError stream); reflexivity.
  - change (unmarshalError (set_reader stream _)) with (unmarshalError stream).
    destruct (unmarshalError stream); reflexivity.
Qed.

(** One pass of the loop over an error lead within the limit: the line,
    without [headerData], goes to the buffer, and the flag is up. *)
Lemma loop_error_lead fuel (l : locals) (stream : streamReader T) (raw rest : bytes) :
  hasErrorPrefix l = false ->
  is_error_lead raw = true ->
  0 <= emptyMessagesCount l < emptyMessagesLimit stream ->
  emptyMessagesLimit stream <= Int.MaxUint64 ->
  unread (reader stream) = raw ++ rest ->
  processLines_loop (S fuel) l stream =
  processLines_loop fuel (mkLocals (emptyMessagesCount l + 1) true)
    (errBuffer_Write (on_body stream rest) (payload raw)).
Proof.
  intros Hflag Hlead Hl Hmax Hbody. unfold is_error_lead in Hlead.
  apply andb_true_iff in Hlead. destruct Hlead as [Hline Herr].
  simpl. unfold ReadBytes. rewrite Hbody, (cut_line_one_line _ _ Hline).
  rewrite Hflag. simpl. rewrite Herr. simpl. rewrite orb_true_r.
  rewrite wrapU64_small by lia.
  destruct (_ <? _) eqn:Hlt; [apply Z.ltb_lt in Hlt; lia|].
  reflexivity.
Qed.

(** C5, as the code has it. For a reader with a limit of at least one and
    an empty buffer, on the body [data: {"error":{"message":"boom"}}]
    closed after its line feed, where the envelope decodes to an error with
    the message [boom]: [Recv] returns an error that wraps ([%w]) that
    decoded error. And at a pass of the loop where the read fails or an
    error lead was seen before: when the buffer is not empty and decodes to
    an envelope whose error has a message that is not empty, the call
    returns the error that wraps it; when the read has failed and the
    buffer is empty or does not decode, the call returns the error of the
    read. *)
Theorem error_envelope_or_read_failure (stream : streamReader T)
    (respErr : ErrorResponse) (apiErr : APIError) :
  isFinished stream = false ->
  errBuffer stream = [] ->
  1 <= emptyMessagesLimit stream <= Int.MaxUint64 ->
  tail (reader stream) = io_EOF ->
  unread (reader stream) = headerData ++ Sample.boom_envelope ++ [Bytes.LF] ->
  json_Unmarshal Sample.boom_envelope None = (Some respErr, None) ->
  Error respErr = Some apiErr ->
  Message apiErr = "boom"%string ->
  (fst (Recv stream) = Return (zero, Some (stream_error respErr)) /\
   Unwrap (stream_error respErr) = Some (APIError_ptr (Some apiErr))) /\
  (forall fuel l (s : streamReader T) resp e,
     cut_line (unread (reader s)) = None \/ hasErrorPrefix l = true ->
     errBuffer s <> [] ->
     json_Unmarshal (errBuffer s) None = (Some resp, None) ->
     Error resp = Some e ->
     Message e <> EmptyString ->
     ended (processLines_loop (S fuel) l s) = Return (zero, Some (stream_error resp))) /\
  (forall fuel l (s : streamReader T),
     cut_line (unread (reader s)) = None ->
     errBuffer s = [] \/ snd (json_Unmarshal (errBuffer s) None) <> None ->
     ended (processLines_loop (S fuel) l s) = Return (zero, Some (tail (reader s)))).
Proof.
  intros Hfin Hbuf Hlim Htail Hbody Hdec Herr Hmsg. split; [|split].
  - split; [|unfold stream_error; rewrite Herr; reflexivity].
    unfold Recv. rewrite Hfin. unfold processLines. rewrite Hbody.
    set (lead := headerData ++ Sample.boom_envelope ++ [Bytes.LF]) in *.
    assert (Hpay : payload lead = Sample.boom_envelope) by reflexivity.
    change (length lead) with (S (Nat.pred (length lead))).
    rewrite (loop_error_lead _ locals_at_entry stream lead []);
      [|reflexivity|reflexivity|simpl; lia|lia|rewrite app_nil_r; exact Hbody].
    rewrite Hpay, loop_read_failure by (right; reflexivity).
    unfold unmarshalError, errBuffer_Write. cbn [errBuffer on_body set_reader].
    rewrite Hbuf, app_nil_l.
    change (length Sample.boom_envelope =? 0)%nat with false. cbv iota.
    rewrite Hdec. reflexivity.
  - intros fuel l s resp e Hcase Hne Hd He _.
    rewrite (loop_read_failure fuel l s Hcase).
    unfold unmarshalError. rewrite Hd.
    destruct (errBuffer s); [contradiction | reflexivity].
  - intros fuel l s Hcut Hcase.
    rewrite (loop_read_failure fuel l s (or_introl Hcut)).
    unfold ReadBytes. rewrite Hcut. simpl snd.
    unfold unmarshalError. destruct Hcase as [-> | Hbad]; [reflexivity|].
    destruct (length (errBuffer s) =? 0)%nat; [reflexivity|].
    destruct (json_Unmarshal (errBuffer s) None) as [resp [e|]];
      [reflexivity | contradiction].
Qed.

(** C10. When the call of [Recv] passes noise lines within the limit and
    then reads a data frame whose payload does not decode, it returns the
    error of the decoder and leaves [isFinished] false, with the body at the
    line after that frame; the next call of [Recv] goes on reading there:
    it is a call of [processLines], and when the next line is a data frame
    that decodes, it returns that payload. *)
Theorem decode_failure_keeps_stream_open (stream : streamReader T)
    (ns : list bytes) (frame rest : bytes) (partial : T) (e : error) :
  isFinished stream = false ->
  Forall (fun raw => is_noise raw = true) ns ->
  Z.of_nat (length ns) <= emptyMessagesLimit stream <= Int.MaxUint64 ->
  is_data frame = true ->
  Bytes.eqb (payload frame) doneMarker = false ->
  json_Unmarshal (payload frame) zero = (partial, Some e) ->
  unread (reader stream) = concat ns ++ frame ++ rest ->
  let stream' := snd (Recv stream) in
  fst (Recv stream) = Return (zero, Some e) /\
  isFinished stream' = false /\
  stream' = past_noise stream ns rest /\
  Recv stream' = (ended (processLines stream'), after (processLines stream')) /\
  forall frame2 rest2 value,
    rest = frame2 ++ rest2 ->
    is_data frame2 = true ->
    Bytes.eqb (payload frame2) doneMarker = false ->
    json_Unmarshal (payload frame2) zero = (value, None) ->
    fst (Recv stream') = Return (value, None).
Proof.
  intros Hfin Hns Hlim Hdata Hnot Hdec Hbody.
  assert (HRecv : Recv stream = (Return (zero, Some e), past_noise stream ns rest)).
  { unfold Recv. rewrite Hfin.
    destruct (processLines_past_noise stream ns (frame ++ rest)
                Hns ltac:(lia) ltac:(lia) Hbody)
      as (fuel & _ & ->).
    rewrite (loop_data_frame fuel _ _ frame rest); try reflexivity; try assumption.
    cbv zeta. rewrite Hnot, Hdec. reflexivity. }
  cbv zeta. rewrite HRecv. simpl fst. simpl snd.
  assert (Hopen : isFinished (past_noise stream ns rest) = false) by exact Hfin.
  split; [reflexivity|]. split; [exact Hopen|]. split; [reflexivity|]. split.
  - unfold Recv. rewrite Hopen. reflexivity.
  - intros frame2 rest2 value -> Hdata2 Hnot2 Hdec2.
    unfold Recv. rewrite Hopen. unfold processLines.
    rewrite (loop_data_frame _ _ _ frame2 rest2); try reflexivity; try assumption.
    cbv zeta. rewrite Hnot2, Hdec2. reflexivity.
Qed.

End StreamReaderErrors.

(** ** [sendRequest] returns *)

Section DispatcherReturns.
Context {R : Type} `{!JSON R} `{!JSON ErrorResponse}.
Variable c : Client.
Variable rand : Z -> Z.
Variable v : option (Sink R).
Variable options : RetryOptions.
Variable bodyBytes : option bytes.

(** With fuel for the iterations left, the loop returns: it neither runs
    out of fuel nor reads the last of an empty [failures]. *)
Lemma loop_outcome_returns fuel req i fs :
  0 <= i -> 0 <= Retries options < Int.MaxInt64 ->
  (Z.to_nat (Retries options + 1 - i) < fuel)%nat ->
  (0 < i -> fs <> []) ->
  exists r, outcome (sendRequest_loop c rand fuel req v options bodyBytes i fs) = Return r.
Proof.
  intros Hi Hmax. revert req i fs Hi.
  induction fuel as [|fuel IH]; intros req i fs Hi Hfuel Hfs; [lia|].
  simpl. destruct (i <=? Retries options) eqn:Hle.
  - apply Z.leb_le in Hle.
    assert (Hnext : Int.add64 i 1 = i + 1) by (apply add64_succ; lia).
    simpl. rewrite Hnext.
    destruct (HTTPClient_Do _ _ _) as [e|resp].
    + apply IH; [lia | lia | intros _; destruct fs; discriminate].
    + destruct (isFailureStatusCode resp); simpl; [|eexists; reflexivity].
      destruct (canRetry options (StatusCode resp)); simpl; [|eexists; reflexivity].
      destruct (Done_first _ _); simpl; [eexists; reflexivity|].
      apply IH; [lia | lia | intros _; destruct fs; discriminate].
  - apply Z.leb_gt in Hle. simpl. unfold last_failure.
    destruct (last fs) eqn:Hlast; [eexists; reflexivity|].
    apply last_None in Hlast. exfalso. apply Hfs; [lia | exact Hlast].
Qed.

End DispatcherReturns.

(** Every call of [sendRequest] returns, as long as [Retries] is below the
    largest [int]. *)
Lemma sendRequest_returns {R} `{!JSON R} `{!JSON ErrorResponse}
    (c : Client) (rand : Z -> Z) (req : Request) (v : option (Sink R))
    (retryOpts : list RetryOptions) :
  Retries (complete NewDefaultRetryOptions retryOpts) < Int.MaxInt64 ->
  exists r, outcome (sendRequest c rand req v retryOpts) = Return r.
Proof.
  intros Hmax.
  destruct (complete_invariant NewDefaultRetryOptions retryOpts) as [Hpos _];
    [simpl; lia | apply NoDup_nil_2 |].
  unfold sendRequest.
  set (req2 := if String.eqb _ _ then _ else _).
  destruct (req_Body req2) as [body|].
  - destruct (ReadAll body) as [b [e|]]; [eexists; reflexivity|].
    apply loop_outcome_returns; unfold loop_fuel; lia.
  - apply loop_outcome_returns; unfold loop_fuel; lia.
Qed.

(** And so does every call of [sendRequestStream]. *)
Lemma sendRequestStream_returns {T} `{!JSON ErrorResponse}
    (c : Client) (rand : Z -> Z) (req : Request) (retryOpts : list RetryOptions) :
  Retries (complete NewDefaultRetryOptions retryOpts) < Int.MaxInt64 ->
  exists r, outcome (sendRequestStream (T := T) c rand req retryOpts) = Return r.
Proof.
  intros Hmax.
  destruct (complete_invariant NewDefaultRetryOptions retryOpts) as [Hpos _];
    [simpl; lia | apply NoDup_nil_2 |].
  unfold sendRequestStream.
  set (req4 := mkRequest _ _ _).
  destruct (req_Body req4) as [body|].
  - destruct (ReadAll body) as [b [e|]]; [eexists; reflexivity|].
    apply stream_loop_outcome_returns; unfold loop_fuel; lia.
  - apply stream_loop_outcome_returns; unfold loop_fuel; lia.
Qed.

(** ** The attempt budget *)

Lemma attempts_indices_length (evs : list Event) :
  length (filter is_attempt evs) = length (attempt_indices evs).
Proof.
  induction evs as [|[i rq res|i d cc] evs IH]; simpl; [reflexivity| |exact IH].
  rewrite IH. reflexivity.
Qed.

Lemma seqZ_one (i : Z) : seqZ i 1 = [i].
Proof. rewrite seqZ_cons by lia. rewrite seqZ_nil by lia. reflexivity. Qed.

Lemma seqZ_succ (i n : Z) : 0 <= n -> i :: seqZ (i + 1) n = seqZ i (n + 1).
Proof.
  intros Hn. rewrite (seqZ_cons i (n + 1)) by lia.
  replace (Z.succ i) with (i + 1) by lia. replace (Z.pred (n + 1)) with n by lia.
  reflexivity.
Qed.

Lemma attempt_indices_do i rq res evs :
  attempt_indices (EvDo i rq res :: evs) = i :: attempt_indices evs.
Proof. reflexivity. Qed.

Lemma attempt_indices_wait i d cc evs :
  attempt_indices (EvWait i d cc :: evs) = attempt_indices evs.
Proof. reflexivity. Qed.

Lemma wait_durations_do i rq res evs :
  wait_durations (EvDo i rq res :: evs) = wait_durations evs.
Proof. reflexivity. Qed.

Lemma wait_durations_wait i d cc evs :
  wait_durations (EvWait i d cc :: evs) = d :: wait_durations evs.
Proof. reflexivity. Qed.

#[local] Arguments attempt_indices : simpl never.
#[local] Arguments wait_durations : simpl never.

(** The reading of one more pass of a loop: rewrite the events it adds. *)
Ltac read_events :=
  rewrite ?attempt_indices_do, ?attempt_indices_wait,
    ?wait_durations_do, ?wait_durations_wait.

Section DispatcherBudget.
Context {R : Type} `{!JSON R} `{!JSON ErrorResponse}.
Variable c : Client.
Variable rand : Z -> Z.
Variable v : option (Sink R).
Variable options : RetryOptions.
Variable bodyBytes : option bytes.

(** From iteration [i] on, the loop calls the transport in the iterations
    [i], [i + 1], ... without a gap, at most up to [Retries], and waits at
    most once per call. *)
Lemma loop_attempt_indices fuel req i fs :
  0 <= i <= Retries options + 1 -> Retries options < Int.MaxInt64 ->
  let evs := events (sendRequest_loop c rand fuel req v options bodyBytes i fs) in
  exists n,
    0 <= n <= Retries options + 1 - i /\
    attempt_indices evs = seqZ i n /\
    (length (wait_durations evs) <= length (attempt_indices evs))%nat.
Proof.
  intros Hi Hmax. revert req i fs Hi.
  induction fuel as [|fuel IH]; intros req i fs Hi; simpl.
  - exists 0. rewrite seqZ_nil by lia. repeat split; simpl; lia.
  - destruct (i <=? Retries options) eqn:Hle.
    + apply Z.leb_le in Hle.
      assert (Hnext : Int.add64 i 1 = i + 1) by (apply add64_succ; lia).
      simpl. rewrite Hnext.
      destruct (HTTPClient_Do _ _ _) as [e|resp].
      * edestruct (IH (reset_body req bodyBytes) (i + 1)) as (n & Hn & Hidx & Hw);
          [lia|].
        exists (n + 1). read_events. split; [lia|]. split.
        -- rewrite Hidx. apply seqZ_succ. lia.
        -- simpl. apply Nat.le_le_succ_r. exact Hw.
      * destruct (isFailureStatusCode resp); simpl;
          [|exists 1; rewrite seqZ_one; repeat split; simpl; lia].
        destruct (canRetry options (StatusCode resp)); simpl;
          [|exists 1; rewrite seqZ_one; repeat split; simpl; lia].
        destruct (Done_first _ _); simpl;
          [exists 1; rewrite seqZ_one; repeat split; simpl; lia|].
        edestruct (IH (reset_body req bodyBytes) (i + 1)) as (n & Hn & Hidx & Hw);
          [lia|].
        exists (n + 1). read_events. split; [lia|]. split.
        -- rewrite Hidx. apply seqZ_succ. lia.
        -- simpl. apply le_n_S. exact Hw.
    + exists 0. rewrite seqZ_nil by lia. repeat split; simpl; lia.
Qed.

End DispatcherBudget.

Section DispatcherTrace.
Context {R : Type} `{!JSON R} `{!JSON ErrorResponse}.
Variable c : Client.
Variable rand : Z -> Z.
Variable v : option (Sink R).
Variable options : RetryOptions.
Variable bodyBytes : option bytes.

(** The loop of [sendRequestStream] calls the transport and waits exactly
    as the loop of [sendRequest] does. *)
Lemma stream_loop_events {T} fuel req i fs fs' :
  events (sendRequestStream_loop (T := T) c rand fuel req options bodyBytes i fs) =
  events (sendRequest_loop c rand fuel req v options bodyBytes i fs').
Proof.
  revert req i fs fs'. induction fuel as [|fuel IH]; intros req i fs fs'; simpl;
    [reflexivity|].
  destruct (i <=? Retries options); [|reflexivity]. simpl.
  destruct (HTTPClient_Do _ _ _) as [e|resp]; [f_equal; apply IH|].
  destruct (isFailureStatusCode resp); simpl; [|reflexivity].
  destruct (canRetry options (StatusCode resp)); simpl; [|reflexivity].
  destruct (Done_first _ _); simpl; [reflexivity|].
  do 2 f_equal. apply IH.
Qed.

(** Every call of the transport gets the request with its body reset to
    the saved bytes. *)
Lemma loop_requests_sent fuel req i fs rq :
  rq ∈ requests_sent (events (sendRequest_loop c rand fuel req v options bodyBytes i fs)) ->
  rq = reset_body req bodyBytes.
Proof.
  assert (Hidem : forall r, reset_body (reset_body r bodyBytes) bodyBytes
                            = reset_body r bodyBytes)
    by (intros r; destruct bodyBytes; reflexivity).
  revert req i fs. induction fuel as [|fuel IH]; intros req i fs; simpl;
    [intros Hin; inversion Hin|].
  destruct (i <=? Retries options); [|intros Hin; inversion Hin]. simpl.
  intros Hin. apply elem_of_cons in Hin. destruct Hin as [-> | Hin]; [reflexivity|].
  destruct (HTTPClient_Do _ _ _) as [e|resp].
  - apply IH in Hin. rewrite Hidem in Hin. exact Hin.
  - destruct (isFailureStatusCode resp); simpl in Hin; [|inversion Hin].
    destruct (canRetry options (StatusCode resp)); simpl in Hin; [|inversion Hin].
    destruct (Done_first _ _); simpl in Hin; [inversion Hin|].
    apply IH in Hin. rewrite Hidem in Hin. exact Hin.
Qed.

(** A call answered with a status that is no failure is the last event,
    and the loop returns what [sendRequest_success] makes of the answer. *)
Lemma loop_success_last fuel req i fs pre ev post :
  events (sendRequest_loop c rand fuel req v options bodyBytes i fs) = pre ++ ev :: post ->
  is_success ev = true ->
  post = [] /\
  exists j rq resp,
    ev = EvDo j rq (DoResp resp) /\
    outcome (sendRequest_loop c rand fuel req v options bodyBytes i fs)
    = Return (sendRequest_success resp v).
Proof.
  revert req i fs pre.
  induction fuel as [|fuel IH]; intros req i fs pre; simpl;
    [destruct pre; discriminate|].
  destruct (i <=? Retries options); [|destruct pre; discriminate].
  simpl. destruct (HTTPClient_Do _ _ _) as [e|resp] eqn:Hdo.
  - destruct pre as [|x pre]; [intros [= <- _]; discriminate|].
    intros [= _ Hpost]. apply (IH _ _ _ pre). exact Hpost.
  - destruct (isFailureStatusCode resp) eqn:Hfail; simpl.
    + destruct (canRetry options (StatusCode resp)); simpl.
      * destruct (Done_first _ _); simpl.
        -- destruct pre as [|x [|y pre]].
           ++ intros [= <- _]. simpl. rewrite Hfail. discriminate.
           ++ intros [= _ <- _]. discriminate.
           ++ intros [= _ _ Hpost]. destruct pre; discriminate.
        -- destruct pre as [|x [|y pre]].
           ++ intros [= <- _]. simpl. rewrite Hfail. discriminate.
           ++ intros [= _ <- _]. discriminate.
           ++ intros [= _ _ Hpost]. apply (IH _ _ _ pre). exact Hpost.
      * destruct pre as [|x pre]; [|destruct pre; discriminate].
        intros [= <- _]. simpl. rewrite Hfail. discriminate.
    + destruct pre as [|x pre]; [|destruct pre; discriminate].
      intros [= <- <-] _. split; [reflexivity|]. eexists _, _, _.
      split; reflexivity.
Qed.

(** Without such an answer, whatever the loop returns is an error, and [v]
    is as it was. *)
Lemma loop_failure_keeps_sink fuel req i fs r :
  Forall (fun ev => is_success ev = false)
    (events (sendRequest_loop c rand fuel req v options bodyBytes i fs)) ->
  outcome (sendRequest_loop c rand fuel req v options bodyBytes i fs) = Return r ->
  exists e, r = (Some e, v).
Proof.
  revert req i fs.
  induction fuel as [|fuel IH]; intros req i fs; simpl; [discriminate|].
  destruct (i <=? Retries options).
  - simpl. destruct (HTTPClient_Do _ _ _) as [e|resp].
    + intros Hall. apply Forall_cons in Hall. destruct Hall as [_ Hall].
      apply IH. exact Hall.
    + destruct (isFailureStatusCode resp) eqn:Hfail; simpl.
      * destruct (canRetry options (StatusCode resp)); simpl;
          [|intros _ [= <-]; eexists; reflexivity].
        destruct (Done_first _ _); simpl; [intros _ [= <-]; eexists; reflexivity|].
        intros Hall. apply Forall_cons in Hall. destruct Hall as [_ Hall].
        apply Forall_cons in Hall. destruct Hall as [_ Hall].
        apply IH. exact Hall.
      * intros Hall. apply Forall_cons in Hall. destruct Hall as [Hno _].
        simpl in Hno. rewrite Hfail in Hno. discriminate.
  - simpl. destruct (last_failure fs); [|discriminate].
    intros _ [= <-]. eexists. reflexivity.
Qed.

(** When the transport fails every call, the loop calls it in every
    iteration left, never waits, and returns the error of the used-up
    attempts with the failure of the last iteration. *)
Lemma loop_all_transport_failures (fail : Z -> error) fuel req i fs :
  (forall j rq, HTTPClient_Do (config c) j rq = DoErr (fail j)) ->
  0 <= i <= Retries options -> Retries options < Int.MaxInt64 ->
  (Z.to_nat (Retries options + 1 - i) < fuel)%nat ->
  let run := sendRequest_loop c rand fuel req v options bodyBytes i fs in
  attempt_indices (events run) = seqZ i (Retries options + 1 - i) /\
  wait_durations (events run) = [] /\
  outcome run =
    Return (Some (exceeded (send_failure options (Retries options)
                              (fail (Retries options)))), v).
Proof.
  intros Hdo Hi Hmax. revert req i fs Hi.
  induction fuel as [|fuel IH]; intros req i fs Hi Hfuel; [lia|].
  simpl. destruct (i <=? Retries options) eqn:Hle; [|apply Z.leb_gt in Hle; lia].
  assert (Hnext : Int.add64 i 1 = i + 1) by (apply add64_succ; lia).
  simpl. rewrite Hnext, Hdo. read_events.
  destruct (Z.eq_dec i (Retries options)) as [-> | Hne].
  - destruct fuel as [|fuel]; [lia|]. simpl.
    destruct (Retries options + 1 <=? Retries options) eqn:Hle';
      [apply Z.leb_le in Hle'; lia|].
    simpl. unfold last_failure. rewrite last_snoc.
    replace (Retries options + 1 - Retries options) with 1 by lia.
    rewrite seqZ_one. repeat split.
  - destruct (IH (reset_body req bodyBytes) (i + 1)
                (fs ++ [Sprintf "#%d/%d failed to send request: %v"
                          [attempt_no i; attempt_no (Retries options);
                           ErrArg (Some (fail i))]]) ltac:(lia) ltac:(lia))
      as (Hidx & Hw & Hout).
    rewrite Hidx, Hw, Hout. split; [|split; reflexivity].
    replace (Retries options + 1 - i) with (Retries options + 1 - (i + 1) + 1) by lia.
    apply seqZ_succ. lia.
Qed.

End DispatcherTrace.

(** ** Runs of the dispatchers *)

(** [sendRequest] with the request body saved is its loop on the request
    with the headers set and the body read to its end; [sendRequestStream]
    likewise. *)
Lemma sendRequest_unfold {R} `{!JSON R} `{!JSON ErrorResponse}
    (c : Client) (rand : Z -> Z) (req : Request) (v : option (Sink R))
    (retryOpts : list RetryOptions) :
  let options := complete NewDefaultRetryOptions retryOpts in
  let h1 := Header_Set (req_Header req) "Accept" "application/json" in
  let h2 :=
    if String.eqb (Header_Get h1 "Content-Type") EmptyString
    then Header_Set h1 "Content-Type" "application/json" else h1 in
  sendRequest c rand req v retryOpts =
  match req_Body req with
  | Some body =>
      match ReadAll body with
      | (_, Some e) => mkRun (Return (Some (body_unreadable e), v)) [] [] []
      | (b, None) =>
          sendRequest_loop c rand (loop_fuel options)
            (mkRequest h2 (Some (drained body)) (req_Context req)) v options (Some b) 0 []
      end
  | None =>
      sendRequest_loop c rand (loop_fuel options)
        (mkRequest h2 None (req_Context req)) v options None 0 []
  end.
Proof.
  cbv zeta. unfold sendRequest. simpl.
  destruct (String.eqb _ _); simpl; destruct (req_Body req) as [body|]; reflexivity.
Qed.

Lemma sendRequestStream_unfold {T} `{!JSON ErrorResponse}
    (c : Client) (rand : Z -> Z) (req : Request) (retryOpts : list RetryOptions) :
  let options := complete NewDefaultRetryOptions retryOpts in
  let h :=
    Header_Set
      (Header_Set
         (Header_Set (Header_Set (req_Header req) "Content-Type" "application/json")
            "Accept" "text/event-stream")
         "Cache-Control" "no-cache")
      "Connection" "keep-alive" in
  sendRequestStream (T := T) c rand req retryOpts =
  match req_Body req with
  | Some body =>
      match ReadAll body with
      | (_, Some e) => mkRun (Return (None, Some (body_unreadable e))) [] [] []
      | (b, None) =>
          sendRequestStream_loop c rand (loop_fuel options)
            (mkRequest h (Some (drained body)) (req_Context req)) options (Some b) 0 []
      end
  | None =>
      sendRequestStream_loop c rand (loop_fuel options)
        (mkRequest h None (req_Context req)) options None 0 []
  end.
Proof.
  cbv zeta. unfold sendRequestStream. simpl.
  destruct (req_Body req) as [body|]; reflexivity.
Qed.

Lemma complete_Retries_nonneg (retryOpts : list RetryOptions) :
  0 <= Retries (complete NewDefaultRetryOptions retryOpts).
Proof. apply complete_invariant; simpl; [lia | apply NoDup_nil_2]. Qed.

(** X1. Both dispatchers call the transport in the iterations 0, 1, 2, ...
    without a gap, at most [Retries + 1] times, and wait at most once per
    call (for [Retries] below the largest [int]). *)
Theorem attempts_within_budget {R T} `{!JSON R} `{!JSON ErrorResponse}
    (c : Client) (rand : Z -> Z) (req : Request) (v : option (Sink R))
    (retryOpts : list RetryOptions) :
  let options := complete NewDefaultRetryOptions retryOpts in
  Retries options < Int.MaxInt64 ->
  forall evs,
    evs = events (sendRequest c rand req v retryOpts) \/
    evs = events (sendRequestStream (T := T) c rand req retryOpts) ->
    attempt_indices evs = seqZ 0 (Z.of_nat (length (attempt_indices evs))) /\
    Z.of_nat (length (attempt_indices evs)) <= Retries options + 1 /\
    (length (wait_durations evs) <= length (attempt_indices evs))%nat.
Proof.
  intros options Hmax evs Hevs.
  pose proof (complete_Retries_nonneg retryOpts) as Hpos. fold options in Hpos.
  assert (Hloop : evs = [] \/ exists rq b,
            evs = events (sendRequest_loop c rand (loop_fuel options) rq v options b 0 [])).
  { destruct Hevs as [-> | ->].
    - rewrite sendRequest_unfold. fold options.
      destruct (req_Body req) as [body|]; [|right; eexists _, _; reflexivity].
      destruct (ReadAll body) as [b [e|]]; [left; reflexivity|].
      right. eexists _, _. reflexivity.
    - rewrite sendRequestStream_unfold. fold options.
      destruct (req_Body req) as [body|];
        [|right; eexists _, _; apply stream_loop_events].
      destruct (ReadAll body) as [b [e|]]; [left; reflexivity|].
      right. eexists _, _. apply stream_loop_events. }
  destruct Hloop as [-> | (rq & b & ->)].
  - simpl. rewrite seqZ_nil by lia. repeat split; simpl; lia.
  - destruct (loop_attempt_indices c rand v options b (loop_fuel options) rq 0 []
                ltac:(lia) Hmax) as (n & Hn & Hidx & Hw).
    rewrite Hidx, length_seqZ. rewrite Z2Nat.id by lia.
    split; [reflexivity|]. split; [lia|].
    rewrite Hidx, length_seqZ in Hw. exact Hw.
Qed.

Lemma Header_Get_Set (h : Header) (key value : string) :
  Header_Get (Header_Set h key value) key = value.
Proof. unfold Header_Get, Header_Set. rewrite lookup_insert_eq. reflexivity. Qed.

Lemma Header_Get_Set_ne (h : Header) (key key' value : string) :
  key <> key' -> Header_Get (Header_Set h key value) key' = Header_Get h key'.
Proof.
  intros Hne. unfold Header_Get, Header_Set. rewrite lookup_insert_ne by exact Hne.
  reflexivity.
Qed.

(** X2. Every attempt of [sendRequest] sends the same request: although
    the caller's body has been read to its end before the first attempt,
    the body sent is a fresh buffer over the bytes read from it; [Accept]
    is [application/json], [Content-Type] is the caller's when the caller
    has set one and [application/json] otherwise, the other headers and the
    context are the caller's. *)
Theorem sendRequest_replays_request {R} `{!JSON R} `{!JSON ErrorResponse}
    (c : Client) (rand : Z -> Z) (req : Request) (v : option (Sink R))
    (retryOpts : list RetryOptions) (rq : Request) :
  rq ∈ requests_sent (events (sendRequest c rand req v retryOpts)) ->
  req_Body rq = (fun body => NewBuffer (fst (ReadAll body))) <$> req_Body req /\
  req_Context rq = req_Context req /\
  Header_Get (req_Header rq) "Accept" = "application/json"%string /\
  Header_Get (req_Header rq) "Content-Type" =
    (if String.eqb (Header_Get (req_Header req) "Content-Type") EmptyString
     then "application/json"%string
     else Header_Get (req_Header req) "Content-Type") /\
  forall key, key <> "Accept"%string -> key <> "Content-Type"%string ->
    req_Header rq !! key = req_Header req !! key.
Proof.
  rewrite sendRequest_unfold. cbv zeta.
  rewrite (Header_Get_Set_ne _ "Accept" "Content-Type") by discriminate.
  set (ct := Header_Get (req_Header req) "Content-Type").
  intros Hin.
  assert (Hrq : rq = mkRequest
                  (if String.eqb ct EmptyString
                   then Header_Set (Header_Set (req_Header req) "Accept" "application/json")
                          "Content-Type" "application/json"
                   else Header_Set (req_Header req) "Accept" "application/json")
                  ((fun body => NewBuffer (fst (ReadAll body))) <$> req_Body req)
                  (req_Context req)).
  { destruct (req_Body req) as [body|]; simpl.
    - destruct (ReadAll body) as [b [e|]] eqn:Hread; [inversion Hin|].
      apply loop_requests_sent in Hin. rewrite Hin. simpl.
      replace b with (fst (ReadAll body)) by (rewrite Hread; reflexivity).
      reflexivity.
    - apply loop_requests_sent in Hin. exact Hin. }
  subst rq. simpl. split; [reflexivity|]. split; [reflexivity|].
  destruct (String.eqb ct EmptyString) eqn:Hct.
  - split; [rewrite Header_Get_Set_ne by discriminate; apply Header_Get_Set|].
    split; [apply Header_Get_Set|].
    intros key Ha Hc. unfold Header_Set. rewrite !lookup_insert_ne by congruence.
    reflexivity.
  - split; [apply Header_Get_Set|].
    split; [rewrite Header_Get_Set_ne by discriminate; reflexivity|].
    intros key Ha Hc. unfold Header_Set. rewrite !lookup_insert_ne by congruence.
    reflexivity.
Qed.

(** X3. Every attempt of [sendRequestStream] sends the same request, with
    the four streaming headers set, whatever [Content-Type] the caller had
    set, and with a fresh buffer over the bytes read from the caller's body
    before the first attempt. *)
Theorem sendRequestStream_replays_request {T} `{!JSON ErrorResponse}
    (c : Client) (rand : Z -> Z) (req : Request)
    (retryOpts : list RetryOptions) (rq : Request) :
  rq ∈ requests_sent (events (sendRequestStream (T := T) c rand req retryOpts)) ->
  req_Body rq = (fun body => NewBuffer (fst (ReadAll body))) <$> req_Body req /\
  req_Context rq = req_Context req /\
  Header_Get (req_Header rq) "Content-Type" = "application/json"%string /\
  Header_Get (req_Header rq) "Accept" = "text/event-stream"%string /\
  Header_Get (req_Header rq) "Cache-Control" = "no-cache"%string /\
  Header_Get (req_Header rq) "Connection" = "keep-alive"%string.
Proof.
  rewrite sendRequestStream_unfold. cbv zeta. intros Hin.
  set (h := Header_Set _ "Connection" _) in *.
  assert (Hrq : rq = mkRequest h
                  ((fun body => NewBuffer (fst (ReadAll body))) <$> req_Body req)
                  (req_Context req)).
  { destruct (req_Body req) as [body|]; simpl.
    - destruct (ReadAll body) as [b [e|]] eqn:Hread; [inversion Hin|].
      rewrite (stream_loop_events (R := unit) c rand None _ _ _ _ _ _ []) in Hin.
      apply loop_requests_sent in Hin. rewrite Hin. simpl.
      replace b with (fst (ReadAll body)) by (rewrite Hread; reflexivity).
      reflexivity.
    - rewrite (stream_loop_events (R := unit) c rand None _ _ _ _ _ _ []) in Hin.
      apply loop_requests_sent in Hin. exact Hin. }
  subst rq h. simpl. split; [reflexivity|]. split; [reflexivity|].
  repeat split;
    repeat first [apply Header_Get_Set | rewrite Header_Get_Set_ne by discriminate].
Qed.

(** X4. In a run of [sendRequest], a response whose status is no failure
    ends the run: nothing is sent or waited for after it, and the call
    returns what decoding that response into [v] gives. A run without such
    a response does return (for [Retries] below the largest [int]), and
    what it returns is an error, with [v] as it was. *)
Theorem sendRequest_stops_at_success {R} `{!JSON R} `{!JSON ErrorResponse}
    (c : Client) (rand : Z -> Z) (req : Request) (v : option (Sink R))
    (retryOpts : list RetryOptions) :
  let options := complete NewDefaultRetryOptions retryOpts in
  let run := sendRequest c rand req v retryOpts in
  (forall pre ev post,
     events run = pre ++ ev :: post -> is_success ev = true ->
     post = [] /\
     exists i rq resp,
       ev = EvDo i rq (DoResp resp) /\
       outcome run = Return (sendRequest_success resp v)) /\
  (Retries options < Int.MaxInt64 ->
   Forall (fun ev => is_success ev = false) (events run) ->
   exists e, outcome run = Return (Some e, v)).
Proof.
  cbv zeta. split.
  - rewrite sendRequest_unfold. cbv zeta. intros pre ev post.
    destruct (req_Body req) as [body|]; [|apply loop_success_last].
    destruct (ReadAll body) as [b [e|]]; [|apply loop_success_last].
    simpl. destruct pre; discriminate.
  - intros Hmax.
    destruct (sendRequest_returns c rand req v retryOpts Hmax) as [r Hr].
    revert Hr. rewrite sendRequest_unfold. cbv zeta.
    assert (Hloop : forall b rq,
              let run := sendRequest_loop c rand
                           (loop_fuel (complete NewDefaultRetryOptions retryOpts))
                           rq v (complete NewDefaultRetryOptions retryOpts) b 0 [] in
              outcome run = Return r ->
              Forall (fun ev => is_success ev = false) (events run) ->
              exists e, outcome run = Return (Some e, v)).
    { intros b rq run Hr Hall.
      destruct (loop_failure_keeps_sink c rand v _ b _ rq 0 [] r Hall Hr) as [e ->].
      exists e. exact Hr. }
    destruct (req_Body req) as [body|]; [|apply Hloop].
    destruct (ReadAll body) as [b [e|]]; [|apply Hloop].
    simpl. intros _ _. eexists. reflexivity.
Qed.

(** X5. When the transport fails every call, [sendRequest] with a body it
    can save calls it [Retries + 1] times, in the iterations 0 to
    [Retries], without waiting in between, and returns the error of the
    used-up attempts, which carries the failure of the last iteration
    only. *)
Theorem all_transport_failures_use_up_budget {R} `{!JSON R} `{!JSON ErrorResponse}
    (c : Client) (rand : Z -> Z) (req : Request) (v : option (Sink R))
    (retryOpts : list RetryOptions) (fail : Z -> error) :
  let options := complete NewDefaultRetryOptions retryOpts in
  let run := sendRequest c rand req v retryOpts in
  Retries options < Int.MaxInt64 ->
  body_readable req ->
  (forall i rq, HTTPClient_Do (config c) i rq = DoErr (fail i)) ->
  attempt_indices (events run) = seqZ 0 (Retries options + 1) /\
  wait_durations (events run) = [] /\
  outcome run =
    Return (Some (exceeded (send_failure options (Retries options)
                              (fail (Retries options)))), v).
Proof.
  intros options run Hmax Hbody Hdo. subst run.
  pose proof (complete_Retries_nonneg retryOpts) as Hpos. fold options in Hpos.
  destruct (sendRequest_readable c rand req v retryOpts Hbody)
    as (req' & b & _ & ->). fold options.
  replace (Retries options + 1) with (Retries options + 1 - 0) at 1 by lia.
  apply loop_all_transport_failures; try assumption; try lia.
  unfold loop_fuel. lia.
Qed.

(** X6. [sendRequest] calls the transport at least once, in iteration 0,
    whenever it can save the request body; when reading the body fails it
    calls nothing and returns the error of the read, wrapped in text. *)
Theorem first_attempt_unless_body_unreadable {R} `{!JSON R} `{!JSON ErrorResponse}
    (c : Client) (rand : Z -> Z) (req : Request) (v : option (Sink R))
    (retryOpts : list RetryOptions) :
  let run := sendRequest c rand req v retryOpts in
  (body_readable req -> exists rq res post, events run = EvDo 0 rq res :: post) /\
  (forall body e,
     req_Body req = Some body -> snd (ReadAll body) = Some e ->
     events run = [] /\ failures run = [] /\ logs run = [] /\
     outcome run = Return (Some (body_unreadable e), v)).
Proof.
  cbv zeta. split.
  - intros Hbody.
    destruct (sendRequest_readable c rand req v retryOpts Hbody)
      as (req' & b & _ & ->).
    unfold loop_fuel. apply loop_within_budget. apply complete_Retries_nonneg.
  - intros body e Hreq Hread. rewrite sendRequest_unfold. cbv zeta. rewrite Hreq.
    destruct (ReadAll body) as [b [e'|]]; simpl in Hread; [|discriminate].
    injection Hread as ->. repeat split.
Qed.

Lemma complete_RetryAboveCode (r : RetryOptions) (opts : list RetryOptions) :
  0 < RetryAboveCode r ->
  0 < RetryAboveCode (complete r opts) /\
  (Forall (fun o => RetryAboveCode o <= 0) opts ->
   RetryAboveCode (complete r opts) = RetryAboveCode r).
Proof.
  intros Hr. induction opts as [|opt opts [IHpos IHsame]] using rev_ind.
  - split; [exact Hr | reflexivity].
  - rewrite complete_snoc. simpl.
    destruct (0 <? RetryAboveCode opt) eqn:Hpos.
    + apply Z.ltb_lt in Hpos. split; [exact Hpos|].
      intros Hall. apply Forall_app in Hall. destruct Hall as [_ Hopt].
      inversion Hopt; subst. lia.
    + split; [exact IHpos|]. intros Hall. apply Forall_app in Hall.
      apply IHsame, Hall.
Qed.

(** X7. The threshold of a policy merged onto the default is always
    positive, so the guard of [canRetry] never switches it off: a status is
    retried exactly when it is above the threshold or among the codes. As
    long as no override gives a threshold, it is the default 1, and every
    status above 1 is retried. *)
Theorem merged_policy_retries_above_threshold (retryOpts : list RetryOptions)
    (statusCode : Z) :
  let r := complete NewDefaultRetryOptions retryOpts in
  0 < RetryAboveCode r /\
  (canRetry r statusCode = true <->
   RetryAboveCode r < statusCode \/ statusCode ∈ RetryCodes r) /\
  (Forall (fun o => RetryAboveCode o <= 0) retryOpts ->
   1 < statusCode -> canRetry r statusCode = true).
Proof.
  intros r.
  destruct (complete_RetryAboveCode NewDefaultRetryOptions retryOpts ltac:(simpl; lia))
    as [Hpos Hsame]. fold r in Hpos, Hsame.
  assert (Hiff : canRetry r statusCode = true <->
                 RetryAboveCode r < statusCode \/ statusCode ∈ RetryCodes r).
  { unfold canRetry. destruct (0 <? RetryAboveCode r) eqn:H0;
      [|apply Z.ltb_ge in H0; lia].
    simpl. destruct (RetryAboveCode r <? statusCode) eqn:Hlt.
    - apply Z.ltb_lt in Hlt. tauto.
    - apply Z.ltb_ge in Hlt. rewrite slices_Contains_elem.
      split; [tauto | intros [?|?]; [lia | assumption]]. }
  split; [exact Hpos|]. split; [exact Hiff|].
  intros Hall Hcode. apply Hiff. left. rewrite (Hsame Hall). simpl. exact Hcode.
Qed.

(** X8. [sendRequest] without retry options, on a body it can save, when
    the transport answers with a failure status above 1: the one attempt is
    followed by the backoff wait of iteration 0, between 200 and 400 ms,
    and the call then returns the error of the used-up attempts (or the
    cancellation error when the context is done during the wait), never the
    error of a status that is not retried. *)
Theorem default_policy_waits_on_failure_status {R} `{!JSON R} `{!JSON ErrorResponse}
    (c : Client) (rand : Z -> Z) (req : Request) (v : option (Sink R))
    (resp : Response) :
  let run := sendRequest c rand req v [] in
  let cancelled := Done_first (req_Context req) 0 in
  body_readable req ->
  (forall rq, HTTPClient_Do (config c) 0 rq = DoResp resp) ->
  isFailureStatusCode resp = true ->
  1 < StatusCode resp ->
  (exists rq, events run =
     [EvDo 0 rq (DoResp resp); EvWait 0 (backoff (rand 0) 0) cancelled]) /\
  baseDelay <= backoff (rand 0) 0 < 2 * baseDelay /\
  outcome run =
    Return
      (Some (if cancelled then canceled (req_Context req)
             else exceeded (status_failure NewDefaultRetryOptions 0
                              (handleErrorResp resp))), v).
Proof.
  intros run cancelled Hbody Hdo Hfail Hcode. subst run cancelled.
  destruct (sendRequest_readable c rand req v [] Hbody) as (req' & b & Hctx & ->).
  change (complete NewDefaultRetryOptions []) with NewDefaultRetryOptions.
  assert (Hretry : canRetry NewDefaultRetryOptions (StatusCode resp) = true).
  { unfold canRetry. simpl. destruct (1 <? StatusCode resp) eqn:Hlt;
      [reflexivity | apply Z.ltb_ge in Hlt; lia]. }
  assert (Hreset : req_Context (reset_body req' b) = req_Context req)
    by (rewrite <- Hctx; destruct b; reflexivity).
  destruct (backoff_exact (rand 0) 0 ltac:(lia)) as [Hb Hj].
  assert (H01 : Int.add64 0 1 = 1) by reflexivity.
  unfold loop_fuel. simpl. rewrite Hdo, Hfail, Hretry. simpl. rewrite Hreset, ?H01.
  destruct (Done_first (req_Context req) 0); simpl;
    (split; [eexists; reflexivity|]); (split; [rewrite Hb; lia|]); reflexivity.
Qed.

Section StreamDispatcherTrace.
Context {T : Type} `{!JSON ErrorResponse}.
Variable client : Client.
Variable rand : Z -> Z.
Variable options : RetryOptions.
Variable bodyBytes : option bytes.

Lemma stream_loop_success_last fuel req i fs pre ev post :
  events (sendRequestStream_loop (T := T) client rand fuel req options bodyBytes i fs)
  = pre ++ ev :: post ->
  is_success ev = true ->
  post = [] /\
  exists j rq resp,
    ev = EvDo j rq (DoResp resp) /\
    outcome (sendRequestStream_loop (T := T) client rand fuel req options bodyBytes i fs)
    = Return (Some (reader_of client resp), None).
Proof.
  revert req i fs pre.
  induction fuel as [|fuel IH]; intros req i fs pre; simpl;
    [destruct pre; discriminate|].
  destruct (i <=? Retries options); [|destruct pre; discriminate].
  simpl. destruct (HTTPClient_Do _ _ _) as [e|resp] eqn:Hdo.
  - destruct pre as [|x pre]; [intros [= <- _]; discriminate|].
    intros [= _ Hpost]. apply (IH _ _ _ pre). exact Hpost.
  - destruct (isFailureStatusCode resp) eqn:Hfail; simpl.
    + destruct (canRetry options (StatusCode resp)); simpl.
      * destruct (Done_first _ _); simpl.
        -- destruct pre as [|x [|y pre]].
           ++ intros [= <- _]. simpl. rewrite Hfail. discriminate.
           ++ intros [= _ <- _]. discriminate.
           ++ intros [= _ _ Hpost]. destruct pre; discriminate.
        -- destruct pre as [|x [|y pre]].
           ++ intros [= <- _]. simpl. rewrite Hfail. discriminate.
           ++ intros [= _ <- _]. discriminate.
           ++ intros [= _ _ Hpost]. apply (IH _ _ _ pre). exact Hpost.
      * destruct pre as [|x pre]; [|destruct pre; discriminate].
        intros [= <- _]. simpl. rewrite Hfail. discriminate.
    + destruct pre as [|x pre]; [|destruct pre; discriminate].
      intros [= <- <-] _. split; [reflexivity|]. eexists _, _, _.
      split; reflexivity.
Qed.

Lemma stream_loop_failure_no_reader fuel req i fs r :
  Forall (fun ev => is_success ev = false)
    (events (sendRequestStream_loop (T := T) client rand fuel req options bodyBytes i fs)) ->
  outcome (sendRequestStream_loop (T := T) client rand fuel req options bodyBytes i fs)
  = Return r ->
  exists e, r = (None, Some e).
Proof.
  revert req i fs.
  induction fuel as [|fuel IH]; intros req i fs; simpl; [discriminate|].
  destruct (i <=? Retries options).
  - simpl. destruct (HTTPClient_Do _ _ _) as [e|resp].
    + intros Hall. apply Forall_cons in Hall. destruct Hall as [_ Hall].
      apply IH. exact Hall.
    + destruct (isFailureStatusCode resp) eqn:Hfail; simpl.
      * destruct (canRetry options (StatusCode resp)); simpl;
          [|intros _ [= <-]; eexists; reflexivity].
        destruct (Done_first _ _); simpl; [intros _ [= <-]; eexists; reflexivity|].
        intros Hall. apply Forall_cons in Hall. destruct Hall as [_ Hall].
        apply Forall_cons in Hall. destruct Hall as [_ Hall].
        apply IH. exact Hall.
      * intros Hall. apply Forall_cons in Hall. destruct Hall as [Hno _].
        simpl in Hno. rewrite Hfail in Hno. discriminate.
  - simpl. destruct (last_failure fs); [|discriminate].
    intros _ [= <-]. eexists. reflexivity.
Qed.

End StreamDispatcherTrace.

(** X9. In a run of [sendRequestStream], a response whose status is no
    failure ends the run, and the call returns, without an error, a reader
    on the body of that response: not finished, its error buffer empty, its
    limit the one of the client configuration. A run without such a
    response does return (for [Retries] below the largest [int]), and what
    it returns is no reader and an error. *)
Theorem sendRequestStream_returns_fresh_reader {T} `{!JSON ErrorResponse}
    (c : Client) (rand : Z -> Z) (req : Request) (retryOpts : list RetryOptions) :
  let options := complete NewDefaultRetryOptions retryOpts in
  let run := sendRequestStream (T := T) c rand req retryOpts in
  (forall pre ev post,
     events run = pre ++ ev :: post -> is_success ev = true ->
     post = [] /\
     exists i rq resp,
       ev = EvDo i rq (DoResp resp) /\
       outcome run = Return (Some (reader_of c resp), None)) /\
  (Retries options < Int.MaxInt64 ->
   Forall (fun ev => is_success ev = false) (events run) ->
   exists e, outcome run = Return (None, Some e)).
Proof.
  cbv zeta. split.
  - rewrite sendRequestStream_unfold. cbv zeta. intros pre ev post.
    destruct (req_Body req) as [body|]; [|apply stream_loop_success_last].
    destruct (ReadAll body) as [b [e|]]; [|apply stream_loop_success_last].
    simpl. destruct pre; discriminate.
  - intros Hmax.
    destruct (sendRequestStream_returns (T := T) c rand req retryOpts Hmax) as [r Hr].
    revert Hr. rewrite sendRequestStream_unfold. cbv zeta.
    assert (Hloop : forall b rq,
              let run := sendRequestStream_loop (T := T) c rand
                           (loop_fuel (complete NewDefaultRetryOptions retryOpts))
                           rq (complete NewDefaultRetryOptions retryOpts) b 0 [] in
              outcome run = Return r ->
              Forall (fun ev => is_success ev = false) (events run) ->
              exists e, outcome run = Return (None, Some e)).
    { intros b rq run Hr Hall.
      destruct (stream_loop_failure_no_reader c rand _ b _ rq 0 [] r Hall Hr) as [e ->].
      exists e. exact Hr. }
    destruct (req_Body req) as [body|]; [|apply Hloop].
    destruct (ReadAll body) as [b [e|]]; [|apply Hloop].
    simpl. intros _ _. eexists. reflexivity.
Qed.

(** X10. [handleErrorResp] always gives an error that carries the status
    code of the response: the decoded [APIError], when the body decodes to
    an envelope whose error has a message that is not empty, and otherwise
    a [RequestError] around the text of the body as far as it could be
    read. *)
Theorem handleErrorResp_carries_status `{!JSON ErrorResponse} (resp : Response) :
  let data := unread (resp_Body resp) in
  let '(errRes, e) := json_Decode (NewBuffer data) (mkErrorResponse None) in
  (forall apiErr,
     e = None -> Error errRes = Some apiErr -> Message apiErr <> EmptyString ->
     handleErrorResp resp =
       APIError_ptr (Some (mkAPIError (Message apiErr) (StatusCode resp)))) /\
  ((e <> None \/ Error errRes = None \/
    exists apiErr, Error errRes = Some apiErr /\ Message apiErr = EmptyString) ->
   handleErrorResp resp = RequestError_ptr (StatusCode resp) (errors_New (OfBytes data))).
Proof.
  cbv zeta. unfold handleErrorResp. simpl.
  destruct (json_Decode _ _) as [errRes e]. split.
  - intros apiErr -> -> Hmsg.
    destruct (String.eqb (Message apiErr) EmptyString) eqn:Heq; [|reflexivity].
    apply String.eqb_eq in Heq. contradiction.
  - intros [He | [Hnone | (apiErr & Hsome & Hmsg)]].
    + destruct e; [reflexivity | contradiction].
    + rewrite Hnone. destruct e; reflexivity.
    + rewrite Hsome, Hmsg. destruct e; reflexivity.
Qed.

(** ** More on merging *)

Lemma add_codes_absorb (codes new : list Z) :
  (forall code, code ∈ new -> code ∈ codes) -> add_codes codes new = codes.
Proof.
  induction new as [|code new IH] using rev_ind; intros Hall; [reflexivity|].
  rewrite add_codes_snoc. cbv zeta.
  rewrite IH by (intros x Hx; apply Hall, elem_of_app; left; exact Hx).
  destruct (slices_Contains codes code) eqn:Hc; [reflexivity|].
  exfalso. assert (Hin : code ∈ codes)
    by (apply Hall, elem_of_app; right; apply list_elem_of_singleton; reflexivity).
  apply slices_Contains_elem in Hin. congruence.
Qed.

(** X11. Merging an override a second time changes nothing, and a merge
    never takes a code away: the codes of the policy stay, in their order,
    in front of the new ones. *)
Theorem complete_idempotent_and_growing (r opt : RetryOptions)
    (opts : list RetryOptions) :
  complete (complete r [opt]) [opt] = complete r [opt] /\
  RetryCodes r `prefix_of` RetryCodes (complete r opts).
Proof.
  split.
  - unfold complete. simpl. unfold complete_one. simpl. f_equal.
    + destruct (0 <? Retries opt); reflexivity.
    + destruct (0 <? RetryAboveCode opt); reflexivity.
    + apply add_codes_absorb. intros code Hin. apply add_codes_elem. right. exact Hin.
  - induction opts as [|o opts IH] using rev_ind; [reflexivity|].
    rewrite complete_snoc. simpl.
    destruct (add_codes_prefix (RetryCodes (complete r opts)) (RetryCodes o))
      as [added ->].
    etransitivity; [exact IH | apply prefix_app_r; reflexivity].
Qed.

(** X12. After merging overrides onto a policy, [retries] is the value of
    the last override that gives a positive one, and the value of the
    policy when none does; the same holds for [retryAboveCode]. *)
Theorem complete_last_positive_wins (r : RetryOptions) (opts : list RetryOptions) :
  Retries (complete r opts) =
    default (Retries r) (last (filter (fun x => 0 < x) (Retries <$> opts))) /\
  RetryAboveCode (complete r opts) =
    default (RetryAboveCode r)
      (last (filter (fun x => 0 < x) (RetryAboveCode <$> opts))).
Proof.
  induction opts as [|opt opts [IHr IHa]] using rev_ind; [split; reflexivity|].
  rewrite complete_snoc, !fmap_app, !filter_app. simpl. split.
  - rewrite filter_cons, filter_nil.
    destruct (0 <? Retries opt) eqn:Hpos.
    + apply Z.ltb_lt in Hpos. rewrite decide_True by exact Hpos.
      rewrite last_snoc. reflexivity.
    + apply Z.ltb_ge in Hpos. rewrite decide_False by lia.
      rewrite app_nil_r. exact IHr.
  - rewrite filter_cons, filter_nil.
    destruct (0 <? RetryAboveCode opt) eqn:Hpos.
    + apply Z.ltb_lt in Hpos. rewrite decide_True by exact Hpos.
      rewrite last_snoc. reflexivity.
    + apply Z.ltb_ge in Hpos. rewrite decide_False by lia.
      rewrite app_nil_r. exact IHa.
Qed.

(** ** What a call leaves of the reader *)

Lemma advanced_refl {T} (s : streamReader T) : advanced s s.
Proof. unfold advanced. repeat split; try reflexivity. intros H; exact H. Qed.

Lemma advanced_trans {T} (s1 s2 s3 : streamReader T) :
  advanced s1 s2 -> advanced s2 s3 -> advanced s1 s3.
Proof.
  unfold advanced.
  intros (Hl & Hr & Hh & Ht & Hu & He & Hf) (Hl' & Hr' & Hh' & Ht' & Hu' & He' & Hf').
  repeat split; try congruence.
  - etransitivity; eassumption.
  - etransitivity; eassumption.
  - intros H. apply Hf', Hf, H.
Qed.

(** Taking a line off the body and writing to the error buffer advance
    the reader. *)
Lemma advanced_read {T} (s : streamReader T) (write : bytes) :
  let '(_, _, rd) := ReadBytes (reader s) in
  advanced s (set_reader s rd) /\
  advanced s (errBuffer_Write (set_reader s rd) write) /\
  advanced s (set_isFinished (set_reader s rd) true).
Proof.
  unfold ReadBytes.
  destruct (cut_line (unread (reader s))) as [[line rest]|] eqn:Hcut.
  - apply cut_line_app in Hcut. destruct Hcut as [Hcut _].
    assert (Hsuf : rest `suffix_of` unread (reader s))
      by (rewrite Hcut; apply suffix_app_r; reflexivity).
    unfold advanced. simpl. repeat split; try reflexivity; try exact Hsuf;
      try (intros H; exact H); apply prefix_app_r; reflexivity.
  - unfold advanced. simpl.
    repeat split; try reflexivity; try apply suffix_nil;
      try (intros H; exact H); apply prefix_app_r; reflexivity.
Qed.

Section StreamReaderFrame.
Context {T : Type} `{!streamable T} `{!JSON (option ErrorResponse)}.

Lemma loop_advanced fuel (l : locals) (s : streamReader T) :
  advanced s (after (processLines_loop fuel l s)).
Proof.
  revert l s. induction fuel as [|fuel IH]; intros l s; simpl;
    [apply advanced_refl|].
  pose proof (advanced_read s) as Hread.
  destruct (ReadBytes (reader s)) as [[rawLine readErr] rd].
  destruct (bool_decide (is_Some readErr) || hasErrorPrefix l).
  - destruct (unmarshalError _); simpl; apply (Hread []).
  - set (l1 := if Bytes.HasPrefix _ errorPrefix then _ else l).
    destruct (negb _ || hasErrorPrefix l1).
    + match goal with
      | |- context [errBuffer_Write _ ?w] =>
          destruct (Hread w) as (_ & Hwrite & _)
      end.
      destruct (_ <? _); simpl; [exact Hwrite|].
      eapply advanced_trans; [exact Hwrite | apply IH].
    + destruct (Bytes.eqb _ doneMarker); simpl; [apply (Hread [])|].
      destruct (json_Unmarshal _ _) as [x [e|]]; simpl; apply (Hread []).
Qed.

(** X13. Whatever the body holds, any number of calls of [Recv] only move
    a reader forward: the limit, the response and the headers stay as they
    are, the part of the body still to read is a suffix of what it was, the
    error buffer keeps what it held and is only added to, and [isFinished],
    once set, stays set. *)
Theorem Recv_only_advances (n : nat) (s : streamReader T) :
  advanced s (snd (Recv_times n s)).
Proof.
  revert s. induction n as [|n IH]; intros s; simpl; [apply advanced_refl|].
  destruct (Recv s) as [r s1] eqn:HRecv.
  specialize (IH s1). destruct (Recv_times n s1) as [rs s2]. simpl in *.
  eapply advanced_trans; [|exact IH].
  unfold Recv in HRecv. destruct (isFinished s).
  - injection HRecv as _ <-. apply advanced_refl.
  - injection HRecv as _ <-. apply loop_advanced.
Qed.

(** X14. When what is left of the body holds no line feed, a call of
    [Recv] on a reader that has not finished takes all of it and decodes
    none of it, even if it is a complete data frame: the call returns the
    error wrapping the decoded error buffer when that buffer decodes, and
    the error of the read otherwise. The reader is left at the end of the
    body, not finished, and from there every further call returns the
    same. *)
Theorem unterminated_last_line_is_dropped (s : streamReader T) (n : nat) :
  isFinished s = false ->
  cut_line (unread (reader s)) = None ->
  let result :=
    match unmarshalError s with
    | Some respErr => Return (zero, Some (stream_error respErr))
    | None => Return (zero, Some (tail (reader s)))
    end in
  let s' := on_body s [] in
  Recv s = (result, s') /\
  Recv_times n s' = (repeat result n, s').
Proof.
  intros Hfin Hcut. cbv zeta.
  assert (Hone : forall s0 : streamReader T,
            isFinished s0 = false -> cut_line (unread (reader s0)) = None ->
            Recv s0 =
            (match unmarshalError s0 with
             | Some respErr => Return (zero, Some (stream_error respErr))
             | None => Return (zero, Some (tail (reader s0)))
             end, on_body s0 [])).
  { intros s0 Hfin0 Hcut0. unfold Recv. rewrite Hfin0. unfold processLines. simpl.
    unfold ReadBytes. rewrite Hcut0. simpl.
    change (unmarshalError (set_reader s0 _)) with (unmarshalError s0).
    destruct (unmarshalError s0); reflexivity. }
  split; [apply Hone; assumption|].
  induction n as [|n IH]; simpl; [reflexivity|].
  rewrite (Hone (on_body s []) Hfin eq_refl).
  change (on_body (on_body s []) []) with (on_body s []).
  change (unmarshalError (on_body s [])) with (unmarshalError s).
  change (tail (reader (on_body s []))) with (tail (reader s)).
  rewrite IH. reflexivity.
Qed.

(** X15. After an error lead within the limit, the next line of the body is
    read and thrown away, whatever it holds: the call of [Recv] ends there,
    with the reader after that line and only the error lead, without
    [headerData], added to the error buffer. It returns the error wrapping
    the decoded buffer when the buffer decodes, and otherwise the zero
    payload with no error at all. *)
Theorem error_lead_consumes_next_line (s : streamReader T) (lead next rest : bytes) :
  isFinished s = false ->
  1 <= emptyMessagesLimit s <= Int.MaxUint64 ->
  is_error_lead lead = true ->
  one_line next = true ->
  unread (reader s) = lead ++ next ++ rest ->
  let s' := errBuffer_Write (on_body s rest) (payload lead) in
  Recv s =
    (match unmarshalError s' with
     | Some respErr => Return (zero, Some (stream_error respErr))
     | None => Return (zero, None)
     end, s').
Proof.
  intros Hfin Hlim Hlead Hnext Hbody. cbv zeta.
  unfold Recv. rewrite Hfin. unfold processLines.
  rewrite (loop_error_lead _ locals_at_entry s lead (next ++ rest));
    [|reflexivity|exact Hlead|simpl; lia|lia|exact Hbody].
  assert (Hlen : (0 < length (unread (reader s)))%nat).
  { rewrite Hbody, length_app. unfold is_error_lead in Hlead.
    apply andb_true_iff in Hlead. destruct Hlead as [Hline _].
    apply one_line_nonempty in Hline. lia. }
  destruct (length (unread (reader s))) as [|fuel]; [lia|].
  simpl. unfold ReadBytes. simpl.
  rewrite (cut_line_one_line _ _ Hnext). simpl.
  match goal with
  | |- context [unmarshalError ?x] =>
      change (unmarshalError x)
        with (unmarshalError (errBuffer_Write (on_body s rest) (payload lead)))
  end.
  destruct (unmarshalError _); reflexivity.
Qed.

End StreamReaderFrame.

(** ** Line endings *)

Lemma space2_ascii (b c : Byte.byte) :
  Bytes.asciiSpace c = true -> Bytes.space2 b c = false.
Proof.
  intros Hc. unfold Bytes.space2.
  destruct c; try discriminate Hc; apply andb_false_r.
Qed.

Lemma space3_ascii (b1 b2 c : Byte.byte) :
  Bytes.asciiSpace c = true -> Bytes.space3 b1 b2 c = false.
Proof.
  intros Hc. unfold Bytes.space3.
  destruct c; try discriminate Hc;
    cbn [Bytes.byte_is Byte.to_N N.eqb N.leb N.compare Pos.eqb Pos.compare
         Pos.compare_cont orb andb];
    rewrite ?andb_false_r; reflexivity.
Qed.

Lemma TrimRight_ascii (t : bytes) (c : Byte.byte) :
  Bytes.asciiSpace c = true -> Bytes.TrimRight (t ++ [c]) = Bytes.TrimRight t.
Proof.
  intros Hc. unfold Bytes.TrimRight. rewrite rev_app_distr. simpl.
  rewrite Hc. reflexivity.
Qed.

(** White space of one byte at the end of a slice is trimmed away. *)
Lemma TrimSpace_ascii_end (s : bytes) (c : Byte.byte) :
  Bytes.asciiSpace c = true -> Bytes.TrimSpace (s ++ [c]) = Bytes.TrimSpace s.
Proof.
  intros Hc. unfold Bytes.TrimSpace.
  remember (length s) as n eqn:Hn. revert s Hn.
  induction n as [n IH] using lt_wf_ind. intros s Hn.
  destruct s as [|b1 s1]; simpl; [rewrite Hc; reflexivity|].
  destruct (Bytes.asciiSpace b1) eqn:H1.
  { apply (IH (length s1)); [subst n; simpl; lia | reflexivity]. }
  destruct s1 as [|b2 s2]; simpl.
  { rewrite (space2_ascii _ _ Hc). apply (TrimRight_ascii [b1] c Hc). }
  destruct (Bytes.space2 b1 b2) eqn:H2.
  { apply (IH (length s2)); [subst n; simpl; lia | reflexivity]. }
  destruct s2 as [|b3 s3]; simpl.
  { rewrite (space3_ascii _ _ _ Hc). apply (TrimRight_ascii [b1; b2] c Hc). }
  destruct (Bytes.space3 b1 b2 b3) eqn:H3.
  { apply (IH (length s3)); [subst n; simpl; lia | reflexivity]. }
  apply (TrimRight_ascii (b1 :: b2 :: b3 :: s3) c Hc).
Qed.

Lemma one_line_snoc (content : bytes) :
  Forall (fun b => Bytes.byte_eqb b Bytes.LF = false) content ->
  one_line (content ++ [Bytes.LF]) = true.
Proof.
  unfold one_line. induction 1 as [|b content Hb _ IH]; simpl; [reflexivity|].
  rewrite Hb. destruct (cut_line (content ++ [Bytes.LF])) as [[line [|]]|];
    try discriminate. reflexivity.
Qed.

Section LineEndings.
Context {T : Type} `{!streamable T} `{!JSON (option ErrorResponse)}.

(** With fuel for the whole body, the loop does not depend on the fuel. *)
Lemma loop_fuel_irrelevant fuel1 fuel2 (l : locals) (s : streamReader T) :
  (length (unread (reader s)) < fuel1)%nat ->
  (length (unread (reader s)) < fuel2)%nat ->
  processLines_loop fuel1 l s = processLines_loop fuel2 l s.
Proof.
  revert fuel2 l s. induction fuel1 as [|fuel1 IH]; intros fuel2 l s H1 H2; [lia|].
  destruct fuel2 as [|fuel2]; [lia|].
  simpl. unfold ReadBytes.
  destruct (cut_line (unread (reader s))) as [[line rest]|] eqn:Hcut; simpl;
    [|reflexivity].
  destruct (hasErrorPrefix l); simpl; [reflexivity|].
  set (l1 := if Bytes.HasPrefix _ errorPrefix then _ else l).
  destruct (negb _ || hasErrorPrefix l1); [|reflexivity].
  destruct (_ <? _); [reflexivity|].
  apply cut_line_app in Hcut. destruct Hcut as [Hcut Hline].
  rewrite Hcut, length_app in H1, H2.
  apply IH; simpl; lia.
Qed.

(** One pass of the loop over a line depends on the line through
    [TrimSpace] only. *)
Lemma loop_same_trimmed fuel1 fuel2 (l : locals) (s : streamReader T)
    (raw1 raw2 rest : bytes) :
  one_line raw1 = true -> one_line raw2 = true ->
  Bytes.TrimSpace raw1 = Bytes.TrimSpace raw2 ->
  (length rest < fuel1)%nat -> (length rest < fuel2)%nat ->
  processLines_loop (S fuel1) l (on_body s (raw1 ++ rest)) =
  processLines_loop (S fuel2) l (on_body s (raw2 ++ rest)).
Proof.
  intros Hl1 Hl2 Htrim H1 H2. simpl. unfold ReadBytes. simpl.
  rewrite (cut_line_one_line _ _ Hl1), (cut_line_one_line _ _ Hl2). simpl.
  rewrite Htrim.
  destruct (hasErrorPrefix l); simpl; [reflexivity|].
  set (l1 := if Bytes.HasPrefix _ errorPrefix then _ else l).
  destruct (negb _ || hasErrorPrefix l1); [|reflexivity].
  destruct (_ <? _); [reflexivity|].
  apply loop_fuel_irrelevant; simpl; assumption.
Qed.

(** X16. A line that ends in carriage return and line feed is read as the
    line that ends in the line feed alone: on bodies that differ in this
    ending of their first line only, a call of [Recv] on a reader that has
    not finished returns the same and leaves the same reader. *)
Theorem crlf_line_read_as_lf (s : streamReader T) (content rest : bytes) :
  isFinished s = false ->
  Forall (fun b => Bytes.byte_eqb b Bytes.LF = false) content ->
  Recv (on_body s (content ++ [x0d; Bytes.LF] ++ rest)) =
  Recv (on_body s (content ++ [Bytes.LF] ++ rest)).
Proof.
  intros Hfin Hcontent. unfold Recv.
  change (isFinished (on_body s _)) with (isFinished s). rewrite Hfin.
  assert (Hcr : Forall (fun b => Bytes.byte_eqb b Bytes.LF = false) (content ++ [x0d]))
    by (apply Forall_app; split; [exact Hcontent | repeat constructor]).
  assert (Heq : processLines (on_body s (content ++ [x0d; Bytes.LF] ++ rest)) =
                processLines (on_body s (content ++ [Bytes.LF] ++ rest))).
  { unfold processLines. simpl unread.
    replace (content ++ [x0d; Bytes.LF] ++ rest)
      with (((content ++ [x0d]) ++ [Bytes.LF]) ++ rest)
      by (rewrite <- !app_assoc; reflexivity).
    replace (content ++ [Bytes.LF] ++ rest) with ((content ++ [Bytes.LF]) ++ rest)
      by (rewrite <- app_assoc; reflexivity).
    apply loop_same_trimmed.
    - apply one_line_snoc, Hcr.
    - apply one_line_snoc, Hcontent.
    - rewrite !TrimSpace_ascii_end by reflexivity. reflexivity.
    - rewrite length_app. simpl. lia.
    - rewrite length_app. simpl. lia. }
  rewrite Heq. reflexivity.
Qed.

End LineEndings.

(** ** With and without retries *)

(** [sendRequest] with retries starts from the request the one without
    retries sends, its body read to its end. *)
Lemma sendRequest_from_prepared {R} `{!JSON R} `{!JSON ErrorResponse}
    (c : Client) (rand : Z -> Z) (req : Request) (v : option (Sink R))
    (retryOpts : list RetryOptions) :
  let options := complete NewDefaultRetryOptions retryOpts in
  sendRequest c rand req v retryOpts =
  match req_Body req with
  | Some body =>
      match ReadAll body with
      | (_, Some e) => mkRun (Return (Some (body_unreadable e), v)) [] [] []
      | (b, None) =>
          sendRequest_loop c rand (loop_fuel options)
            (mkRequest (req_Header (Plain.prepared req)) (Some (drained body))
               (req_Context req))
            v options (Some b) 0 []
      end
  | None =>
      sendRequest_loop c rand (loop_fuel options) (Plain.prepared req) v options
        None 0 []
  end.
Proof.
  cbv zeta. unfold sendRequest, Plain.prepared. simpl.
  destruct (String.eqb _ _); simpl; destruct (req_Body req) as [body|]; reflexivity.
Qed.

(** Resetting the body that has been read to the saved bytes gives back
    the request as it was before the read, when the body could be saved. *)
Lemma reset_body_readable (req : Request) (body : Reader) (b : bytes) :
  req_Body req = Some body -> ReadAll body = (b, None) ->
  reset_body
    (mkRequest (req_Header (Plain.prepared req)) (Some (drained body)) (req_Context req))
    (Some b)
  = Plain.prepared req.
Proof.
  intros Hreq Hread. unfold Plain.prepared. simpl.
  destruct body as [data tl]. unfold ReadAll in Hread. simpl in Hread.
  assert (Hb : Some (NewBuffer b) = req_Body req).
  { rewrite Hreq. unfold NewBuffer. destruct tl; try discriminate.
    injection Hread as <-. reflexivity. }
  destruct (String.eqb _ _); simpl; rewrite Hb; reflexivity.
Qed.

(** X17. When the request body can be saved and the transport answers the
    request with a status that is no failure, [sendRequest] with retry
    options, whatever they are, makes that one call, with the request and
    the body that the [sendRequest] without retries sends although it has
    read the body before, and returns exactly what the other returns. *)
Theorem retrying_sendRequest_agrees_on_success {R} `{!JSON R} `{!JSON ErrorResponse}
    (c : Client) (rand : Z -> Z) (req : Request) (v : option (Sink R))
    (retryOpts : list RetryOptions) (resp : Response) :
  let run := sendRequest c rand req v retryOpts in
  body_readable req ->
  HTTPClient_Do (config c) 0 (Plain.prepared req) = DoResp resp ->
  isFailureStatusCode resp = false ->
  events run = [EvDo 0 (Plain.prepared req) (DoResp resp)] /\
  outcome run = Return (Plain.sendRequest c req v).
Proof.
  intros run Hbody Hdo Hok. subst run.
  pose proof (complete_Retries_nonneg retryOpts) as Hpos.
  unfold Plain.sendRequest. rewrite Hdo, Hok.
  rewrite sendRequest_from_prepared. cbv zeta.
  assert (Hloop : forall rq b,
            reset_body rq b = Plain.prepared req ->
            let run := sendRequest_loop c rand
                         (loop_fuel (complete NewDefaultRetryOptions retryOpts))
                         rq v
                         (complete NewDefaultRetryOptions retryOpts) b 0 [] in
            events run = [EvDo 0 (Plain.prepared req) (DoResp resp)] /\
            outcome run = Return (sendRequest_success resp v)).
  { intros rq b Hb. unfold loop_fuel. simpl.
    destruct (0 <=? Retries _) eqn:Hle; [|apply Z.leb_gt in Hle; lia].
    simpl. rewrite Hb, Hdo, Hok. simpl. split; reflexivity. }
  destruct (req_Body req) as [body|] eqn:Hreq.
  - pose proof (Hbody body Hreq) as Hread.
    destruct (ReadAll body) as [b [e|]] eqn:HR; [discriminate|].
    apply Hloop. exact (reset_body_readable req body b Hreq HR).
  - apply Hloop. reflexivity.
Qed.

(** ** URLs *)

Lemma TrimRight_char_snoc (s : string) (c : ascii) :
  TrimRight_char (s ++ String c EmptyString) c = TrimRight_char s c.
Proof.
  induction s as [|a s IH]; simpl.
  - rewrite Ascii.eqb_refl. reflexivity.
  - rewrite IH. reflexivity.
Qed.

Lemma TrimRight_char_no_end (s t : string) (c : ascii) :
  TrimRight_char s c <> (t ++ String c EmptyString)%string.
Proof.
  revert t. induction s as [|a s IH]; intros t; simpl.
  - destruct t; discriminate.
  - destruct (TrimRight_char s c) as [|b u] eqn:Htrim.
    + destruct (Ascii.eqb a c) eqn:Hac; [destruct t; discriminate|].
      destruct t as [|x [|y t]]; simpl; try discriminate.
      intros [= -> ]. rewrite Ascii.eqb_refl in Hac. discriminate.
    + destruct t as [|x t]; simpl; [discriminate|].
      intros [= _ Hu]. exact (IH t Hu).
Qed.

Lemma prefix_app_iff (p s : string) :
  String.prefix p s = true <-> exists post, s = (p ++ post)%string.
Proof.
  revert s. induction p as [|a p IH]; intros s; simpl.
  - split; [intros _; exists s; reflexivity | intros _; destruct s; reflexivity].
  - destruct s as [|b s]; simpl;
      [split; [discriminate | intros [post Hp]; discriminate]|].
    destruct (ascii_dec a b) as [-> | Hne].
    + rewrite IH. split; intros [post Hp]; exists post; [rewrite Hp; reflexivity|].
      injection Hp as Hp. exact Hp.
    + split; [discriminate|]. intros [post Hp]. injection Hp as Hab _. congruence.
Qed.

Lemma strings_Contains_iff (s sub : string) :
  strings_Contains s sub = true <->
  exists pre post, s = (pre ++ sub ++ post)%string.
Proof.
  induction s as [|a s IH].
  - change (strings_Contains EmptyString sub)
      with (String.prefix sub EmptyString || false).
    rewrite orb_false_r, prefix_app_iff. split.
    + intros [post Hp]. exists EmptyString, post. exact Hp.
    + intros (pre & post & Hp). destruct pre; [exists post; exact Hp|discriminate].
  - change (strings_Contains (String a s) sub)
      with (String.prefix sub (String a s) || strings_Contains s sub).
    rewrite orb_true_iff, prefix_app_iff, IH. split.
    + intros [[post Hp] | (pre & post & Hp)].
      * exists EmptyString, post. exact Hp.
      * exists (String a pre), post. simpl. rewrite Hp. reflexivity.
    + intros ([|b pre] & post & Hp).
      * left. exists post. exact Hp.
      * right. injection Hp as _ Hp. exists pre, post. exact Hp.
Qed.

(** X18. [containsSubstr s e] says whether one of the strings of [s] occurs
    somewhere inside [e]. *)
Theorem containsSubstr_iff (s : list string) (e : string) :
  containsSubstr s e = true <->
  exists v pre post, v ∈ s /\ e = (pre ++ v ++ post)%string.
Proof.
  induction s as [|v s IH]; simpl.
  - split; [discriminate | intros (v & _ & _ & Hin & _); inversion Hin].
  - destruct (strings_Contains e v) eqn:Hc.
    + split; [intros _ | reflexivity].
      apply strings_Contains_iff in Hc. destruct Hc as (pre & post & Hp).
      exists v, pre, post. split; [apply elem_of_cons; left; reflexivity | exact Hp].
    + rewrite IH. split.
      * intros (w & pre & post & Hin & Hp). exists w, pre, post.
        split; [apply elem_of_cons; right; exact Hin | exact Hp].
      * intros (w & pre & post & Hin & Hp). apply elem_of_cons in Hin.
        destruct Hin as [-> | Hin]; [|exists w, pre, post; split; assumption].
        assert (Hyes : strings_Contains e v = true)
          by (apply strings_Contains_iff; exists pre, post; exact Hp).
        congruence.
Qed.

Section URLFacts.
Variables APITypeAzure APITypeAzureAD azureAPIPrefix azureDeploymentsPrefix : string.

#[local] Abbreviation url :=
  (fullURL APITypeAzure APITypeAzureAD azureAPIPrefix azureDeploymentsPrefix).

(** X19. For the two Azure API types, [fullURL] does not depend on the
    slashes at the end of the base URL: one more slash there gives the same
    URL. For the other API types the URL is the base URL followed by the
    suffix as they are, whatever the arguments. *)
Theorem fullURL_base_slashes (cfg : URLConfig) (suffix : string) (args : list url_arg) :
  let azure :=
    String.eqb (APIType cfg) APITypeAzure || String.eqb (APIType cfg) APITypeAzureAD in
  let cfg' :=
    mkURLConfig (APIType cfg) (BaseURL cfg ++ "/") (APIVersion cfg)
      (GetAzureDeploymentByModel cfg) in
  (azure = true -> url cfg' suffix args = url cfg suffix args) /\
  (azure = false -> url cfg suffix args = (BaseURL cfg ++ suffix)%string).
Proof.
  cbv zeta. unfold fullURL. simpl. split; intros ->.
  - rewrite (TrimRight_char_snoc (BaseURL cfg) "/"). reflexivity.
  - reflexivity.
Qed.

(** X20. For the two Azure API types and a suffix in which [/models],
    [/assistants], [/threads] or [/files] occurs, the URL has no deployment
    in it and does not depend on the arguments; for any other suffix the
    deployment is the one the configuration maps the model to when the
    first argument is a string, and [UNKNOWN] otherwise. *)
Theorem fullURL_azure_deployment (cfg : URLConfig) (suffix : string)
    (args : list url_arg) :
  String.eqb (APIType cfg) APITypeAzure || String.eqb (APIType cfg) APITypeAzureAD
  = true ->
  let base := TrimRight_char (BaseURL cfg) "/" in
  let listing :=
    containsSubstr ["/models"; "/assistants"; "/threads"; "/files"]%string suffix in
  let deployment :=
    match args with
    | StringArg model :: _ => GetAzureDeploymentByModel cfg model
    | _ => "UNKNOWN"%string
    end in
  (forall t, base <> (t ++ "/")%string) /\
  (listing = true ->
   url cfg suffix args =
     (base ++ "/" ++ azureAPIPrefix ++ suffix ++ "?api-version=" ++ APIVersion cfg)%string) /\
  (listing = false ->
   url cfg suffix args =
     (base ++ "/" ++ azureAPIPrefix ++ "/" ++ azureDeploymentsPrefix ++ "/" ++
      deployment ++ suffix ++ "?api-version=" ++ APIVersion cfg)%string).
Proof.
  intros Hazure. cbv zeta. unfold fullURL. rewrite Hazure.
  split; [intros t; apply TrimRight_char_no_end|].
  split; intros ->; reflexivity.
Qed.

End URLFacts.

(** ** Common headers *)

Section CommonHeadersFacts.
Variables APITypeAzure AzureAPIKeyHeader : string.
Variable canon : string -> string.

#[local] Abbreviation set_common :=
  (setCommonHeaders APITypeAzure AzureAPIKeyHeader canon).

(** X21. [setCommonHeaders] leaves the body, the context and every header
    but the key header of Azure, [Authorization] and [OpenAI-Organization]
    as they are. For the Azure API type it sets the key header to the
    token, be it empty. For the other API types it sets [Authorization] to
    the bearer token when the token is not empty, and with an empty token
    it leaves [Authorization] as the caller had it. *)
Theorem setCommonHeaders_sets_credentials (cfg : AuthConfig) (req : Request) :
  let req' := set_common cfg req in
  let azure := String.eqb (auth_APIType cfg) APITypeAzure in
  let organization := canon "OpenAI-Organization" in
  let authorization := canon "Authorization" in
  req_Body req' = req_Body req /\
  req_Context req' = req_Context req /\
  (forall key,
     key <> canon AzureAPIKeyHeader -> key <> authorization -> key <> organization ->
     req_Header req' !! key = req_Header req !! key) /\
  (azure = true -> canon AzureAPIKeyHeader <> organization ->
   Header_Get (req_Header req') (canon AzureAPIKeyHeader) = authToken cfg) /\
  (azure = false -> authToken cfg <> EmptyString -> authorization <> organization ->
   Header_Get (req_Header req') authorization = ("Bearer " ++ authToken cfg)%string) /\
  (azure = false -> authToken cfg = EmptyString -> authorization <> organization ->
   req_Header req' !! authorization = req_Header req !! authorization).
Proof.
  cbv zeta. unfold setCommonHeaders. simpl.
  split; [reflexivity|]. split; [reflexivity|]. split; [|split; [|split]].
  - intros key Hk Ha Ho.
    destruct (String.eqb (OrgID cfg) EmptyString); simpl;
      destruct (String.eqb (auth_APIType cfg) APITypeAzure); simpl;
      try destruct (String.eqb (authToken cfg) EmptyString); simpl;
      unfold Header_Set; rewrite ?lookup_insert_ne by congruence; reflexivity.
  - intros -> Hne.
    destruct (String.eqb (OrgID cfg) EmptyString); simpl;
      rewrite ?Header_Get_Set_ne by congruence; apply Header_Get_Set.
  - intros -> Htok Hne. apply String.eqb_neq in Htok. rewrite Htok. simpl.
    destruct (String.eqb (OrgID cfg) EmptyString); simpl;
      rewrite ?Header_Get_Set_ne by congruence; apply Header_Get_Set.
  - intros -> Htok Hne. rewrite Htok. simpl.
    destruct (String.eqb (OrgID cfg) EmptyString); simpl; [reflexivity|].
    unfold Header_Set. rewrite lookup_insert_ne by congruence. reflexivity.
Qed.

End CommonHeadersFacts.

(** ** Examples *)

Import Sample.

(** With only [Retries: 2] given, [RetryAboveCode] stays at its default 1,
    so status 400 can be retried: three attempts, three waits, and the
    error of the exhausted budget. *)
Lemma status_400_default_policy_retried :
  let run :=
    sendRequest (R := RawMessage) (always bad_request) draw get_request None
      [mkRetryOptions 2 0 []] in
  canRetry (complete NewDefaultRetryOptions [mkRetryOptions 2 0 []]) 400 = true /\
  attempts run = 3%nat /\
  attempts run <> 1%nat /\
  waits run = [baseDelay * 1 + 7; baseDelay * 2 + 7; baseDelay * 4 + 7] /\
  outcome run <> Return (Some (non_retriable bad_request), None) /\
  outcome run =
    Return
      (Some (fmt_Errorf "request exceeded retry limits: %s"
               [StrArg
                  (Sprintf "#%d/%d error response received: %v"
                     [IntArg 3; IntArg 3;
                      ErrArg (Some (handleErrorResp bad_request))])]),
       None).
Proof.
  cbv zeta. split; [reflexivity|]. split; [reflexivity|].
  split; [vm_compute; discriminate|]. split; [reflexivity|].
  split; [vm_compute; discriminate | reflexivity].
Qed.

(** The rule for C1 on a policy that retries above 499 and on 429. *)
Lemma status_400_not_retried_witness :
  let run :=
    sendRequest (R := RawMessage) (always bad_request) draw get_request None
      [mkRetryOptions 2 499 [429]] in
  attempts run = 1%nat /\
  waits run = [] /\
  outcome run = Return (Some (non_retriable bad_request), None) /\
  Sprintf "#%d/%d error response received: %v"
    [IntArg 1; IntArg 3; ErrArg (Some (handleErrorResp bad_request))] ∈ failures run.
Proof.
  apply (status_400_not_retried_above_400 (always bad_request) draw get_request None
           499 [429] bad_request).
  - lia.
  - intros Hin. apply list_elem_of_singleton in Hin. discriminate Hin.
  - intros body Hbody. discriminate Hbody.
  - intros rq. reflexivity.
  - reflexivity.
Defined.

(** C6 on a scripted transport. *)
Lemma retried_503_503_then_200_witness :
  let ok := ok_response (lit "{}") in
  let c := scripted [DoResp unavailable; DoResp unavailable; DoResp ok] in
  let v := Some (mkSink (R := RawMessage) ∅ []) in
  let run := sendRequest c draw get_request v [mkRetryOptions 2 0 [503]] in
  (attempts run = 3%nat /\
   (exists rq j0 j1,
      0 <= j0 < baseDelay /\ 0 <= j1 < baseDelay /\
      events run =
        [EvDo 0 rq (DoResp unavailable); EvWait 0 (baseDelay * 1 + j0) false;
         EvDo 1 rq (DoResp unavailable); EvWait 1 (baseDelay * 2 + j1) false;
         EvDo 2 rq (DoResp ok)]) /\
   baseDelay = 200 * 1000000 /\
   outcome run = Return (sendRequest_success ok v)) /\
  sendRequest_success ok v = (None, Some (mkSink ∅ (lit "{}"))) /\
  waits run = [200000007; 400000007].
Proof.
  cbv zeta. split; [|split; reflexivity].
  apply (retried_503_503_then_200
           (scripted [DoResp unavailable; DoResp unavailable;
                      DoResp (ok_response (lit "{}"))])
           draw get_request (Some (mkSink ∅ [])) unavailable unavailable
           (ok_response (lit "{}")));
    try reflexivity.
  intros body Hbody. discriminate Hbody.
Defined.



(** C8 on a context cancelled during the second wait, with two retries
    left: the first wait goes by, the second ends the call. *)
Lemma cancel_during_backoff_witness :
  let ctx := cancelled_during 1 in
  let req := mkRequest ∅ None ctx in
  let opts := [mkRetryOptions 3 0 [503]] in
  let rq := sent_request ctx in
  let run := sendRequest (R := RawMessage) (always unavailable) draw req None opts in
  let srun := sendRequestStream (T := RawMessage) (always unavailable) draw req opts in
  events run =
    [EvDo 0 rq (DoResp unavailable); EvWait 0 (backoff 7 0) false;
     EvDo 1 rq (DoResp unavailable); EvWait 1 (backoff 7 1) true] /\
  attempts run = 2%nat /\
  outcome run = Return (Some (canceled ctx), None) /\
  attempts srun = 2%nat /\
  outcome srun = Return (None, Some (canceled ctx)).
Proof.
  cbv zeta.
  pose proof (cancel_during_backoff_ends_call (R := RawMessage) (T := RawMessage)
                (always unavailable) draw (mkRequest ∅ None (cancelled_during 1)) None
                [mkRetryOptions 3 0 [503]]) as Hcancel.
  split; [reflexivity|]. split; [reflexivity|]. split.
  - exact (proj2 (proj2 (proj1 (Hcancel
                                  [EvDo 0 (sent_request (cancelled_during 1))
                                     (DoResp unavailable);
                                   EvWait 0 (backoff 7 0) false;
                                   EvDo 1 (sent_request (cancelled_during 1))
                                     (DoResp unavailable)]
                                  1 (backoff 7 1) true []) eq_refl) eq_refl)).
  - split; [reflexivity|].
    refine (proj2 (proj2 (proj2 (Hcancel [_; _; _] 1 (backoff 7 1) true []) _) eq_refl)).
    reflexivity.
Defined.

(** Two calls on one reader with limit 2: the first passes two noise lines,
    the second a third one. The second call returns its frame, its counter
    at 1: below the 2 the first call ended with. *)
Lemma empty_message_count_reset_between_calls :
  let body :=
    line "x" ++ line "y" ++ line "data: {}" ++ line "z" ++ line "data: {}" in
  let first := processLines (reader_on 2 body) in
  let second := processLines (after first) in
  ended first = Return (lit "{}", None) /\
  emptyMessagesCount (at_exit first) = 2 /\
  ended second = Return (lit "{}", None) /\
  emptyMessagesCount (at_exit second) = 1 /\
  ~ emptyMessagesCount (at_exit first) <= emptyMessagesCount (at_exit second).
Proof.
  cbv zeta. split; [reflexivity|]. split; [reflexivity|].
  split; [reflexivity|]. split; [reflexivity|].
  vm_compute. intros Hle. apply Hle. reflexivity.
Qed.

(** The per-call counter on a body with two noise lines. *)
Lemma empty_message_count_witness :
  let stream := reader_on 2 [] in
  let ns := [line "x"; line ": keep-alive"] in
  emptyMessagesCount locals_at_entry = 0 /\
  (forall fuel l (s : streamReader RawMessage),
     emptyMessagesLimit s = emptyMessagesLimit stream ->
     0 <= emptyMessagesCount l <= emptyMessagesLimit s ->
     emptyMessagesCount l
       <= emptyMessagesCount (at_exit (processLines_loop fuel l s))
       <= emptyMessagesLimit s + 1) /\
  emptyMessagesCount
    (at_exit
       (processLines
          (on_body stream (concat ns ++ line "data: {}" ++ line "data: {}"))))
  = 2.
Proof.
  apply (empty_message_count_is_per_call (reader_on 2 [])
           [line "x"; line ": keep-alive"] (line "data: {}") (line "data: {}")).
  - unfold Int.MaxUint64. cbn. lia.
  - repeat constructor.
  - cbn. lia.
  - reflexivity.
Defined.

(** An error lead right before [data: [DONE]]: the call that reads the
    error lead reads the line of the sentinel as well, and returns the
    error of the envelope. The reader is not finished, and no call returns
    [io.EOF]. *)
Lemma done_marker_after_error_lead :
  let done_line := line "data: [DONE]" in
  let stream := reader_on 3 (boom_body ++ done_line) in
  let failed :=
    Return (zero, Some (stream_error (mkErrorResponse (Some (mkAPIError "boom" 0))))) in
  is_error_lead boom_body = true /\
  is_data done_line = true /\
  payload done_line = doneMarker /\
  fst (Recv stream) = failed /\
  unread (reader (snd (Recv stream))) = [] /\
  isFinished (snd (Recv stream)) = false /\
  fst (Recv_times 3 stream) = [failed; failed; failed] /\
  isFinished (snd (Recv_times 3 stream)) = false /\
  failed <> Return (zero, Some io_EOF).
Proof.
  cbv zeta. repeat (split; [reflexivity|]). discriminate.
Qed.

(** C3 on a body with a keep-alive line before [data: [DONE]]. *)
Lemma done_marker_witness :
  let ns := [line ": keep-alive"] in
  let stream := reader_on 1 (concat ns ++ line "data: [DONE]" ++ line "data: {}") in
  let stream' := snd (Recv stream) in
  fst (Recv stream) = Return (zero, Some io_EOF) /\
  stream' = set_isFinished (past_noise stream ns (line "data: {}")) true /\
  isFinished stream' = true /\
  forall n, Recv_times n stream' = (repeat (Return (zero, Some io_EOF)) n, stream').
Proof.
  apply (done_marker_is_terminal
           (reader_on 1 (concat [line ": keep-alive"] ++ line "data: [DONE]" ++
                         line "data: {}"))
           [line ": keep-alive"] (line "data: [DONE]") (line "data: {}")).
  - reflexivity.
  - repeat constructor.
  - unfold Int.MaxUint64. cbn. lia.
  - reflexivity.
  - reflexivity.
  - reflexivity.
Defined.

(** C4 with a limit of 2. *)
Lemma noise_within_limit_witness :
  let ns := [line "x"; line ": keep-alive"] in
  let stream := reader_on 2 [] in
  fst (Recv (on_body stream (concat ns ++ line "data: {}" ++ [])))
  = Return (lit "{}", None) /\
  fst (Recv (on_body stream (concat ns ++ line "z" ++ [])))
  = Return (zero, Some ErrTooManyEmptyStreamMessages).
Proof.
  apply (noise_within_limit_then_data (reader_on 2 [])
           [line "x"; line ": keep-alive"] (line "z") (line "data: {}") []
           (lit "{}")).
  - reflexivity.
  - reflexivity.
  - unfold Int.MaxUint64. cbn. lia.
  - repeat constructor.
  - reflexivity.
  - reflexivity.
  - reflexivity.
  - reflexivity.
Defined.

(** The error lead of C5 read with a limit of 1. *)
Lemma error_envelope_witness :
  let respErr := mkErrorResponse (Some (mkAPIError "boom" 0)) in
  fst (Recv (reader_on 1 boom_body)) = Return (zero, Some (stream_error respErr)) /\
  Unwrap (stream_error respErr) = Some (APIError_ptr (Some (mkAPIError "boom" 0))).
Proof.
  apply (error_envelope_or_read_failure (reader_on 1 boom_body)
           (mkErrorResponse (Some (mkAPIError "boom" 0))) (mkAPIError "boom" 0)).
  - reflexivity.
  - reflexivity.
  - unfold Int.MaxUint64. cbn. lia.
  - reflexivity.
  - reflexivity.
  - reflexivity.
  - reflexivity.
  - reflexivity.
Defined.

(** With a limit of 0 the error lead itself is one empty message too many.
    With a limit of 1, an envelope whose message is empty, or the noise
    line [{}], still ends the call with the wrapping error and not with the
    [io.EOF] of the read. *)
Lemma error_lead_other_outcomes :
  fst (Recv (reader_on 0 boom_body))
  = Return (zero, Some ErrTooManyEmptyStreamMessages) /\
  fst (Recv (reader_on 1 empty_message_body))
  = Return (zero, Some (stream_error
                          (mkErrorResponse (Some (mkAPIError EmptyString 0))))) /\
  fst (Recv (reader_on 1 empty_message_body)) <> Return (zero, Some io_EOF) /\
  fst (Recv (reader_on 1 (line "{}")))
  = Return (zero, Some (stream_error (mkErrorResponse None))).
Proof.
  split; [reflexivity|]. split; [reflexivity|]. split; [|reflexivity].
  vm_compute. discriminate.
Qed.

(** C10 on a frame that is not JSON, followed by one that is. *)
Lemma decode_failure_witness :
  let ns := [line ": keep-alive"] in
  let stream := reader_on 1 (concat ns ++ line "data: oops" ++ line "data: {}") in
  let stream' := snd (Recv stream) in
  (fst (Recv stream) = Return (zero, Some syntax_error) /\
   isFinished stream' = false /\
   stream' = past_noise stream ns (line "data: {}") /\
   Recv stream' = (ended (processLines stream'), after (processLines stream')) /\
   forall frame2 rest2 value,
     line "data: {}" = frame2 ++ rest2 ->
     is_data frame2 = true ->
     Bytes.eqb (payload frame2) doneMarker = false ->
     json_Unmarshal (payload frame2) zero = (value, None) ->
     fst (Recv stream') = Return (value, None)) /\
  fst (Recv stream') = Return (lit "{}", None).
Proof.
  cbv zeta. split; [|reflexivity].
  refine (@decode_failure_keeps_stream_open RawMessage RawMessage_streamable
            ErrorResponse_ptr_JSON
           (reader_on 1 (concat [line ": keep-alive"] ++ line "data: oops" ++
                         line "data: {}"))
           [line ": keep-alive"] (line "data: oops") (line "data: {}")
           [] syntax_error _ _ _ _ _ _ _).
  - reflexivity.
  - repeat constructor.
  - unfold Int.MaxUint64. cbn. lia.
  - reflexivity.
  - reflexivity.
  - reflexivity.
  - reflexivity.
Defined.

(** ** More examples *)

(** X1 on a run whose first call the transport refuses. *)
Lemma attempts_within_budget_witness :
  let c := scripted [DoErr refused; DoResp unavailable; DoResp (ok_response (lit "{}"))] in
  let opts := [mkRetryOptions 2 0 [503]] in
  let evs := events (sendRequest (R := RawMessage) c draw get_request None opts) in
  Retries (complete NewDefaultRetryOptions opts) < Int.MaxInt64 /\
  attempt_indices evs = [0; 1; 2] /\
  (attempt_indices evs = seqZ 0 (Z.of_nat (length (attempt_indices evs))) /\
   Z.of_nat (length (attempt_indices evs))
     <= Retries (complete NewDefaultRetryOptions opts) + 1 /\
   (length (wait_durations evs) <= length (attempt_indices evs))%nat).
Proof.
  cbv zeta. split; [reflexivity|]. split; [reflexivity|].
  apply (attempts_within_budget (R := RawMessage) (T := RawMessage)
           (scripted [DoErr refused; DoResp unavailable;
                      DoResp (ok_response (lit "{}"))])
           draw get_request None [mkRetryOptions 2 0 [503]]).
  - reflexivity.
  - left. reflexivity.
Defined.

(** X2 on an upload: the caller's [Content-Type] and body reach the
    transport. *)
Lemma sendRequest_replays_request_witness :
  let upload :=
    mkRequest (Header_Set ∅ "Content-Type" "multipart/form-data")
      (Some (NewBuffer (lit "file"))) background in
  let rq :=
    mkRequest
      (Header_Set (Header_Set ∅ "Content-Type" "multipart/form-data")
         "Accept" "application/json")
      (Some (NewBuffer (lit "file"))) background in
  let run :=
    sendRequest (R := RawMessage) (always unavailable) draw upload None
      [mkRetryOptions 1 0 []] in
  requests_sent (events run) = [rq; rq] /\
  req_Body rq = Some (NewBuffer (lit "file")) /\
  Header_Get (req_Header rq) "Content-Type" = "multipart/form-data"%string.
Proof.
  cbv zeta. split; [reflexivity|].
  pose proof (sendRequest_replays_request (R := RawMessage) (always unavailable) draw
                (mkRequest (Header_Set ∅ "Content-Type" "multipart/form-data")
                   (Some (NewBuffer (lit "file"))) background)
                None [mkRetryOptions 1 0 []]
                (mkRequest
                   (Header_Set (Header_Set ∅ "Content-Type" "multipart/form-data")
                      "Accept" "application/json")
                   (Some (NewBuffer (lit "file"))) background)) as Hsame.
  destruct Hsame as (Hbody & _ & _ & Hct & _).
  - apply elem_of_cons. left. reflexivity.
  - split; [exact Hbody | exact Hct].
Defined.

(** X3 on the same upload sent as a stream. *)
Lemma sendRequestStream_replays_request_witness :
  let upload :=
    mkRequest (Header_Set ∅ "Content-Type" "multipart/form-data")
      (Some (NewBuffer (lit "file"))) background in
  let run :=
    sendRequestStream (T := RawMessage) (always unavailable) draw upload
      [mkRetryOptions 1 0 []] in
  exists rq,
    requests_sent (events run) = [rq; rq] /\
    Header_Get (req_Header rq) "Content-Type" = "application/json"%string /\
    Header_Get (req_Header rq) "Accept" = "text/event-stream"%string.
Proof.
  cbv zeta. eexists. split; [reflexivity|].
  match goal with
  | |- Header_Get (req_Header ?rq) _ = _ /\ _ =>
      pose proof (sendRequestStream_replays_request (T := RawMessage)
                    (always unavailable) draw
                    (mkRequest (Header_Set ∅ "Content-Type" "multipart/form-data")
                       (Some (NewBuffer (lit "file"))) background)
                    [mkRetryOptions 1 0 []] rq) as Hsame
  end.
  destruct Hsame as (_ & _ & Hct & Hacc & _).
  - apply elem_of_cons. left. reflexivity.
  - split; [exact Hct | exact Hacc].
Defined.

(** X4 on a run that succeeds at the third call, and on one whose two
    calls the transport fails. *)
Lemma sendRequest_stops_at_success_witness :
  let ok := ok_response (lit "{}") in
  let c := scripted [DoErr refused; DoResp unavailable; DoResp ok] in
  let v := Some (mkSink (R := RawMessage) ∅ []) in
  let run := sendRequest c draw get_request v [mkRetryOptions 5 0 []] in
  let failed := sendRequest (scripted []) draw get_request v [mkRetryOptions 1 0 []] in
  attempt_indices (events run) = [0; 1; 2] /\
  outcome run = Return (sendRequest_success ok v) /\
  attempt_indices (events failed) = [0; 1] /\
  exists e, outcome failed = Return (Some e, v).
Proof.
  cbv zeta. split; [reflexivity|]. split.
  - pose proof (proj1 (sendRequest_stops_at_success (R := RawMessage)
                         (scripted [DoErr refused; DoResp unavailable;
                                    DoResp (ok_response (lit "{}"))])
                         draw get_request (Some (mkSink ∅ [])) [mkRetryOptions 5 0 []]))
      as Hstop.
    destruct (Hstop [EvDo 0 (sent_request background) (DoErr refused);
                     EvDo 1 (sent_request background) (DoResp unavailable);
                     EvWait 1 (backoff 7 1) false]
                (EvDo 2 (sent_request background) (DoResp (ok_response (lit "{}")))) []
                eq_refl eq_refl)
      as (_ & i & rq & resp & Hev & Hout).
    injection Hev as _ _ <-. exact Hout.
  - split; [reflexivity|].
    apply (proj2 (sendRequest_stops_at_success (R := RawMessage) (scripted []) draw
                    get_request (Some (mkSink ∅ [])) [mkRetryOptions 1 0 []]));
      [reflexivity | repeat constructor].
Defined.

(** X5 with two retries. *)
Lemma all_transport_failures_witness :
  let c := scripted [] in
  let run := sendRequest (R := RawMessage) c draw get_request None
               [mkRetryOptions 2 0 []] in
  attempt_indices (events run) = [0; 1; 2] /\
  wait_durations (events run) = [] /\
  outcome run =
    Return (Some (exceeded (send_failure (mkRetryOptions 2 1 []) 2 refused)), None).
Proof.
  apply (all_transport_failures_use_up_budget (R := RawMessage) (scripted []) draw
           get_request None [mkRetryOptions 2 0 []] (fun _ => refused)).
  - reflexivity.
  - intros body Hbody. discriminate Hbody.
  - intros i rq. reflexivity.
Defined.

(** X6 on a body whose read fails. *)
Lemma body_unreadable_witness :
  let broken := mkReader (lit "{") (foreign "unexpected EOF") in
  let req := mkRequest ∅ (Some broken) background in
  let run := sendRequest (R := RawMessage) (always unavailable) draw req None
               [mkRetryOptions 2 0 []] in
  events run = [] /\ failures run = [] /\ logs run = [] /\
  outcome run = Return (Some (body_unreadable (foreign "unexpected EOF")), None).
Proof.
  apply (proj2 (first_attempt_unless_body_unreadable (R := RawMessage)
                  (always unavailable) draw
                  (mkRequest ∅ (Some (mkReader (lit "{") (foreign "unexpected EOF")))
                     background)
                  None [mkRetryOptions 2 0 []])
           (mkReader (lit "{") (foreign "unexpected EOF")) (foreign "unexpected EOF"));
    reflexivity.
Defined.

(** X8 on an unauthorized request sent without retry options. *)
Lemma default_policy_witness :
  let resp := failed_response 401 "401 Unauthorized" in
  let run := sendRequest (R := RawMessage) (always resp) draw get_request None [] in
  (exists rq, events run = [EvDo 0 rq (DoResp resp); EvWait 0 (backoff 7 0) false]) /\
  baseDelay <= backoff 7 0 < 2 * baseDelay /\
  outcome run =
    Return (Some (exceeded (status_failure NewDefaultRetryOptions 0
                              (handleErrorResp resp))), None).
Proof.
  apply (default_policy_waits_on_failure_status (R := RawMessage)
           (always (failed_response 401 "401 Unauthorized")) draw get_request None
           (failed_response 401 "401 Unauthorized")).
  - intros body Hbody. discriminate Hbody.
  - intros rq. reflexivity.
  - reflexivity.
  - cbn. lia.
Defined.

(** X9 on a stream opened at the second call, and on one that is not
    opened. *)
Lemma sendRequestStream_fresh_reader_witness :
  let ok := ok_response (line "data: [DONE]") in
  let c := scripted [DoErr refused; DoResp ok] in
  let run := sendRequestStream (T := RawMessage) c draw get_request
               [mkRetryOptions 1 0 []] in
  let failed := sendRequestStream (T := RawMessage) (scripted []) draw get_request
                  [mkRetryOptions 1 0 []] in
  outcome run = Return (Some (reader_of c ok), None) /\
  fst (Recv (reader_of (T := RawMessage) c ok)) = Return (zero, Some io_EOF) /\
  exists e, outcome failed = Return (None, Some e).
Proof.
  cbv zeta. split; [|split; [reflexivity|]].
  - pose proof (proj1 (sendRequestStream_returns_fresh_reader (T := RawMessage)
                         (scripted [DoErr refused;
                                    DoResp (ok_response (line "data: [DONE]"))])
                         draw get_request [mkRetryOptions 1 0 []])) as Hopen.
    set (srq := mkRequest
                  (Header_Set
                     (Header_Set
                        (Header_Set (Header_Set ∅ "Content-Type" "application/json")
                           "Accept" "text/event-stream")
                        "Cache-Control" "no-cache")
                     "Connection" "keep-alive")
                  None background).
    destruct (Hopen [EvDo 0 srq (DoErr refused)]
                (EvDo 1 srq (DoResp (ok_response (line "data: [DONE]")))) []
                eq_refl eq_refl)
      as (_ & i & rq & resp & Hev & Hout).
    injection Hev as _ _ <-. exact Hout.
  - apply (proj2 (sendRequestStream_returns_fresh_reader (T := RawMessage) (scripted [])
                    draw get_request [mkRetryOptions 1 0 []]));
      [reflexivity | repeat constructor].
Defined.

(** X14 on a last frame without its line feed. *)
Lemma unterminated_last_line_witness :
  let s := reader_on 3 (lit "data: {}") in
  Recv s = (Return (zero, Some io_EOF), on_body s []) /\
  Recv_times 2 (on_body s []) =
    ([Return (zero, Some io_EOF); Return (zero, Some io_EOF)], on_body s []).
Proof.
  apply (unterminated_last_line_is_dropped (reader_on 3 (lit "data: {}")) 2);
    reflexivity.
Defined.

(** X15 on an error lead that does not decode, followed by a data frame. *)
Lemma error_lead_consumes_next_line_witness :
  let lead := headerData ++ envelope_open ++ [Bytes.LF] in
  let s := reader_on 3 (lead ++ line "data: {}" ++ line "data: [DONE]") in
  Recv s =
    (Return (zero, None),
     errBuffer_Write (on_body s (line "data: [DONE]")) envelope_open).
Proof.
  cbv zeta.
  rewrite (error_lead_consumes_next_line
             (reader_on 3 ((headerData ++ envelope_open ++ [Bytes.LF]) ++
                           line "data: {}" ++ line "data: [DONE]"))
             (headerData ++ envelope_open ++ [Bytes.LF]) (line "data: {}")
             (line "data: [DONE]")).
  - reflexivity.
  - reflexivity.
  - unfold Int.MaxUint64. cbn. lia.
  - reflexivity.
  - reflexivity.
  - reflexivity.
Defined.

(** X16 on a data frame. *)
Lemma crlf_line_witness :
  let s := reader_on 3 [] in
  Recv (on_body s (lit "data: {}" ++ [x0d; Bytes.LF] ++ line "data: {}")) =
  Recv (on_body s (lit "data: {}" ++ [Bytes.LF] ++ line "data: {}")).
Proof.
  apply (crlf_line_read_as_lf (reader_on 3 []) (lit "data: {}") (line "data: {}")).
  - reflexivity.
  - repeat constructor.
Defined.

(** X17 on an upload answered at once. *)
Lemma retrying_sendRequest_agrees_witness :
  let ok := ok_response (lit "{}") in
  let v := Some (mkSink (R := RawMessage) ∅ []) in
  let upload := mkRequest ∅ (Some (NewBuffer (lit "file"))) background in
  let run := sendRequest (always ok) draw upload v [mkRetryOptions 3 499 [429]] in
  req_Body (Plain.prepared upload) = Some (NewBuffer (lit "file")) /\
  events run = [EvDo 0 (Plain.prepared upload) (DoResp ok)] /\
  outcome run = Return (Plain.sendRequest (always ok) upload v).
Proof.
  cbv zeta. split; [reflexivity|].
  apply (retrying_sendRequest_agrees_on_success (R := RawMessage)
           (always (ok_response (lit "{}"))) draw
           (mkRequest ∅ (Some (NewBuffer (lit "file"))) background)
           (Some (mkSink ∅ []))
           [mkRetryOptions 3 499 [429]] (ok_response (lit "{}"))).
  - intros body [= <-]. reflexivity.
  - reflexivity.
  - reflexivity.
Defined.

(** X20 on the chat completions of an Azure deployment. *)
Lemma fullURL_azure_witness :
  let cfg :=
    mkURLConfig "azure" "https://example.openai.azure.com//" "2023-05-15"
      (fun model => model) in
  fullURL "azure" "azure_ad" "openai" "deployments" cfg "/chat/completions"
    [StringArg "gpt-4"] =
  "https://example.openai.azure.com/openai/deployments/gpt-4/chat/completions?api-version=2023-05-15"%string /\
  fullURL "azure" "azure_ad" "openai" "deployments" cfg "/models" [StringArg "gpt-4"] =
  "https://example.openai.azure.com/openai/models?api-version=2023-05-15"%string.
Proof.
  cbv zeta.
  pose proof (fullURL_azure_deployment "azure" "azure_ad" "openai" "deployments"
                (mkURLConfig "azure" "https://example.openai.azure.com//" "2023-05-15"
                   (fun model => model))) as Hurl.
  split.
  - destruct (Hurl "/chat/completions"%string [StringArg "gpt-4"] eq_refl)
      as (_ & _ & Hdep).
    rewrite (Hdep eq_refl). reflexivity.
  - destruct (Hurl "/models"%string [StringArg "gpt-4"] eq_refl) as (_ & Hlist & _).
    rewrite (Hlist eq_refl). reflexivity.
Defined.

(** X7 on a policy that names 429 only: 400 is retried all the same. *)
Lemma merged_policy_witness :
  canRetry (complete NewDefaultRetryOptions [mkRetryOptions 2 0 [429]]) 400 = true.
Proof.
  apply (merged_policy_retries_above_threshold [mkRetryOptions 2 0 [429]] 400).
  - repeat constructor. simpl. lia.
  - lia.
Defined.

(** X10 on a response whose body is the error envelope. *)
Lemma handleErrorResp_witness :
  handleErrorResp (mkResponse 401 "401 Unauthorized" ∅ (NewBuffer boom_envelope))
  = APIError_ptr (Some (mkAPIError "boom" 401)).
Proof.
  pose proof (handleErrorResp_carries_status
                (mkResponse 401 "401 Unauthorized" ∅ (NewBuffer boom_envelope)))
    as Hstatus.
  cbn in Hstatus. destruct Hstatus as [Hapi _].
  apply (Hapi (mkAPIError "boom" 0)); [reflexivity | reflexivity | discriminate].
Defined.

(** X19 on a base URL that is not one of Azure. *)
Lemma fullURL_base_witness :
  fullURL "azure" "azure_ad" "openai" "deployments"
    (mkURLConfig "openai" "https://api.openai.com/v1" EmptyString (fun model => model))
    "/chat/completions" [StringArg "gpt-4"]
  = "https://api.openai.com/v1/chat/completions"%string.
Proof.
  apply (proj2 (fullURL_base_slashes "azure" "azure_ad" "openai" "deployments"
                  (mkURLConfig "openai" "https://api.openai.com/v1" EmptyString
                     (fun model => model))
                  "/chat/completions" [StringArg "gpt-4"])).
  reflexivity.
Defined.

(** X21 on a client with a token and no organization. *)
Lemma setCommonHeaders_witness :
  let cfg := mkAuthConfig "openai" "sk-test" EmptyString in
  let req' := setCommonHeaders "azure" "api-key" (fun key => key) cfg get_request in
  Header_Get (req_Header req') "Authorization" = "Bearer sk-test"%string.
Proof.
  cbv zeta.
  destruct (setCommonHeaders_sets_credentials "azure" "api-key" (fun key => key)
              (mkAuthConfig "openai" "sk-test" EmptyString) get_request)
    as (_ & _ & _ & _ & Hbearer & _).
  apply Hbearer; [reflexivity | discriminate | discriminate].
Defined.
